(** * The IKEv2 SA payload of charon: [encoding/payloads/sa_payload.c]

    A shallow embedding of [sa_payload.c] and the properties of its
    verification, length computation, proposal list maintenance and of the
    conversion between the payload tree and [ike_proposal_t] records.

    The payload owns its proposals and a proposal owns its transforms
    exclusively, so the linked lists of object pointers are embedded as lists
    of values.  The embedded functions do not track memory; what [destroy],
    [verify] and [get_ike_proposals] do with the proposals, their iterator and
    the temporary array is embedded apart, along the same control flow. *)

From stdpp Require Import base numbers list.
From Equations Require Equations.

Local Open Scope Z_scope.

(** ** Types declared outside [sa_payload.c] *)

(** Modelled from the spec: [status_t] is declared in [types.h] (absent);
    these are the three outcomes [sa_payload.c] returns (success, failure, and
    the distinct "not found"). *)
Inductive status_t : Set :=
  | SUCCESS
  | FAILED
  | NOT_FOUND.

Global Instance status_t_eq_dec : EqDecision status_t.
Proof. solve_decision. Defined.

(** Modelled from the spec: the payload type codes of [payload.h] (absent).
    [next_payload] is a [u_int8_t]; the two codes used by [sa_payload.c] carry
    their IKEv2 numbers. *)
Definition payload_type_t : Set := Z.
Definition NO_PAYLOAD : payload_type_t := 0.
Definition SECURITY_ASSOCIATION : payload_type_t := 33.

(** Modelled from the spec: the protocol ids of a proposal ("enum including
    IKE, AH, ESP"); [proposal_substructure.h] is absent. *)
Inductive protocol_id_t : Set :=
  | UNDEFINED_PROTOCOL_ID
  | IKE
  | AH
  | ESP.

Global Instance protocol_id_t_eq_dec : EqDecision protocol_id_t.
Proof. solve_decision. Defined.

(** Modelled from the spec: the transform types ("encryption-algorithm,
    integrity-algorithm, pseudo-random-function, Diffie-Hellman-group, ...");
    every type that is none of the four IKE ones falls under the last
    constructor, the [default:] case of the switch in [get_ike_proposals]. *)
Inductive transform_type_t : Set :=
  | ENCRYPTION_ALGORITHM
  | PSEUDO_RANDOM_FUNCTION
  | INTEGRITY_ALGORITHM
  | DIFFIE_HELLMAN_GROUP
  | OTHER_TRANSFORM_TYPE.

Global Instance transform_type_t_eq_dec : EqDecision transform_type_t.
Proof. solve_decision. Defined.

(** Modelled from the spec: macros of [sa_payload.h] (absent).  The header of
    an SA payload is 32 bits on the wire, and the critical flag "must be false
    to be accepted". *)
Definition SA_PAYLOAD_HEADER_LENGTH : Z := 4.
Definition SA_PAYLOAD_CRITICAL_FLAG : bool := false.

(** Modelled from the spec: the IKE proposal record, "{encryption_algorithm id
    + key length, integrity_algorithm id + key length, pseudo_random_function
    id + key length, diffie_hellman_group id}"; the struct is declared in
    [sa_payload.h] (absent). *)
Record ike_proposal_t : Set := {
  encryption_algorithm : Z;
  encryption_algorithm_key_length : Z;
  integrity_algorithm : Z;
  integrity_algorithm_key_length : Z;
  pseudo_random_function : Z;
  pseudo_random_function_key_length : Z;
  diffie_hellman_group : Z
}.

Global Instance ike_proposal_t_eq_dec : EqDecision ike_proposal_t.
Proof. solve_decision. Defined.

(** Assignments to one field of an [ike_proposal_t]. *)
Definition set_encryption_algorithm (v : Z) (r : ike_proposal_t) : ike_proposal_t :=
  {| encryption_algorithm := v;
     encryption_algorithm_key_length := encryption_algorithm_key_length r;
     integrity_algorithm := integrity_algorithm r;
     integrity_algorithm_key_length := integrity_algorithm_key_length r;
     pseudo_random_function := pseudo_random_function r;
     pseudo_random_function_key_length := pseudo_random_function_key_length r;
     diffie_hellman_group := diffie_hellman_group r |}.

Definition set_encryption_algorithm_key_length (v : Z) (r : ike_proposal_t) : ike_proposal_t :=
  {| encryption_algorithm := encryption_algorithm r;
     encryption_algorithm_key_length := v;
     integrity_algorithm := integrity_algorithm r;
     integrity_algorithm_key_length := integrity_algorithm_key_length r;
     pseudo_random_function := pseudo_random_function r;
     pseudo_random_function_key_length := pseudo_random_function_key_length r;
     diffie_hellman_group := diffie_hellman_group r |}.

Definition set_integrity_algorithm (v : Z) (r : ike_proposal_t) : ike_proposal_t :=
  {| encryption_algorithm := encryption_algorithm r;
     encryption_algorithm_key_length := encryption_algorithm_key_length r;
     integrity_algorithm := v;
     integrity_algorithm_key_length := integrity_algorithm_key_length r;
     pseudo_random_function := pseudo_random_function r;
     pseudo_random_function_key_length := pseudo_random_function_key_length r;
     diffie_hellman_group := diffie_hellman_group r |}.

Definition set_integrity_algorithm_key_length (v : Z) (r : ike_proposal_t) : ike_proposal_t :=
  {| encryption_algorithm := encryption_algorithm r;
     encryption_algorithm_key_length := encryption_algorithm_key_length r;
     integrity_algorithm := integrity_algorithm r;
     integrity_algorithm_key_length := v;
     pseudo_random_function := pseudo_random_function r;
     pseudo_random_function_key_length := pseudo_random_function_key_length r;
     diffie_hellman_group := diffie_hellman_group r |}.

Definition set_pseudo_random_function (v : Z) (r : ike_proposal_t) : ike_proposal_t :=
  {| encryption_algorithm := encryption_algorithm r;
     encryption_algorithm_key_length := encryption_algorithm_key_length r;
     integrity_algorithm := integrity_algorithm r;
     integrity_algorithm_key_length := integrity_algorithm_key_length r;
     pseudo_random_function := v;
     pseudo_random_function_key_length := pseudo_random_function_key_length r;
     diffie_hellman_group := diffie_hellman_group r |}.

Definition set_pseudo_random_function_key_length (v : Z) (r : ike_proposal_t) : ike_proposal_t :=
  {| encryption_algorithm := encryption_algorithm r;
     encryption_algorithm_key_length := encryption_algorithm_key_length r;
     integrity_algorithm := integrity_algorithm r;
     integrity_algorithm_key_length := integrity_algorithm_key_length r;
     pseudo_random_function := pseudo_random_function r;
     pseudo_random_function_key_length := v;
     diffie_hellman_group := diffie_hellman_group r |}.

Definition set_diffie_hellman_group (v : Z) (r : ike_proposal_t) : ike_proposal_t :=
  {| encryption_algorithm := encryption_algorithm r;
     encryption_algorithm_key_length := encryption_algorithm_key_length r;
     integrity_algorithm := integrity_algorithm r;
     integrity_algorithm_key_length := integrity_algorithm_key_length r;
     pseudo_random_function := pseudo_random_function r;
     pseudo_random_function_key_length := pseudo_random_function_key_length r;
     diffie_hellman_group := v |}.

(** ** Transform substructures *)

(** Modelled from the spec: [transform_substructure.c] is absent.  A transform
    has a "transform type", a "transform id", an "optional key-length
    attribute (present/absent + value)" and a "last-transform flag". *)
Record transform_substructure_t : Set := {
  transform_type : transform_type_t;
  transform_id : Z;
  key_length : option Z;
  is_last_transform : bool
}.

Global Instance transform_substructure_t_eq_dec : EqDecision transform_substructure_t.
Proof. solve_decision. Defined.

Definition get_transform_type (t : transform_substructure_t) : transform_type_t :=
  transform_type t.

Definition get_transform_id (t : transform_substructure_t) : Z :=
  transform_id t.

(** Modelled from the spec: "get type/id/key-length-presence".  [Some k] is
    the outcome [SUCCESS] with [k] stored through the out pointer, [None] the
    failure outcome, which stores nothing. *)
Definition get_key_length (t : transform_substructure_t) : option Z :=
  key_length t.

Definition set_is_last_transform (t : transform_substructure_t) (b : bool)
  : transform_substructure_t :=
  {| transform_type := transform_type t;
     transform_id := transform_id t;
     key_length := key_length t;
     is_last_transform := b |}.

(** Modelled from the spec: "construct ... from (type, id, key length) for
    algorithms that are key-length-parameterized". *)
Definition transform_substructure_create_type
    (type : transform_type_t) (id : Z) (key_len : Z) : transform_substructure_t :=
  {| transform_type := type;
     transform_id := id;
     key_length := Some key_len;
     is_last_transform := true |}.

(** ** Proposal substructures *)

(** Modelled from the spec: [proposal_substructure.c] is absent.  A proposal
    has a "proposal number", a "protocol id", an "SPI (variable-length byte
    string, length 0 for IKE)", an "ordered sequence of Transform
    Substructures (insertion order = wire order)" and a "last-proposal
    flag". *)
Record proposal_substructure_t : Set := {
  proposal_number : Z;
  protocol_id : protocol_id_t;
  spi : list Z;
  transforms : list transform_substructure_t;
  is_last_proposal : bool
}.

Global Instance proposal_substructure_t_eq_dec : EqDecision proposal_substructure_t.
Proof. solve_decision. Defined.

Definition get_proposal_number (p : proposal_substructure_t) : Z := proposal_number p.
Definition get_protocol_id (p : proposal_substructure_t) : protocol_id_t := protocol_id p.
Definition get_transform_count (p : proposal_substructure_t) : Z :=
  Z.of_nat (length (transforms p)).
Definition get_spi_size (p : proposal_substructure_t) : Z :=
  Z.of_nat (length (spi p)).

Definition set_is_last_proposal (p : proposal_substructure_t) (b : bool)
  : proposal_substructure_t :=
  {| proposal_number := proposal_number p;
     protocol_id := protocol_id p;
     spi := spi p;
     transforms := transforms p;
     is_last_proposal := b |}.

Definition set_protocol_id (p : proposal_substructure_t) (id : protocol_id_t)
  : proposal_substructure_t :=
  {| proposal_number := proposal_number p;
     protocol_id := id;
     spi := spi p;
     transforms := transforms p;
     is_last_proposal := is_last_proposal p |}.

Definition set_proposal_number (p : proposal_substructure_t) (n : Z)
  : proposal_substructure_t :=
  {| proposal_number := n;
     protocol_id := protocol_id p;
     spi := spi p;
     transforms := transforms p;
     is_last_proposal := is_last_proposal p |}.

(** Modelled from the spec: the constructor of an empty proposal. *)
Definition proposal_substructure_create : proposal_substructure_t :=
  {| proposal_number := 0;
     protocol_id := UNDEFINED_PROTOCOL_ID;
     spi := [];
     transforms := [];
     is_last_proposal := true |}.

(** Modelled from the spec: "add_transform(t): clears last-flag on the
    previous tail (if any), sets it on t, appends t". *)
Definition add_transform_substructure
    (p : proposal_substructure_t) (t : transform_substructure_t)
  : proposal_substructure_t :=
  let n := length (transforms p) in
  let ts := if decide (0 < n)%nat
            then alter (fun l => set_is_last_transform l false) (n - 1)%nat (transforms p)
            else transforms p in
  {| proposal_number := proposal_number p;
     protocol_id := protocol_id p;
     spi := spi p;
     transforms := ts ++ [set_is_last_transform t true];
     is_last_proposal := is_last_proposal p |}.

(** ** The payload interface *)

(** [payload_t]: the two entries of the function table that [sa_payload.c]
    calls on its proposals, [payload_interface.verify] and [get_length]. *)
Class payload_t (A : Type) := {
  payload_verify : A -> status_t;
  payload_get_length : A -> Z;
  (* [get_length] returns a [size_t] *)
  payload_get_length_size_t : forall a, 0 <= payload_get_length a
}.

(** ** The SA payload *)

(** [struct private_sa_payload_t].  [next_payload] is a [u_int8_t] and
    [payload_length] a [u_int16_t]; the function table and the
    [compute_length] pointer, which [sa_payload_create] always sets to the one
    function below, are left out. *)
Record private_sa_payload_t : Set := {
  next_payload : payload_type_t;
  critical : bool;
  payload_length : Z;
  proposals : list proposal_substructure_t
}.

(** The conversions to [u_int8_t] and [u_int16_t] of the assignments to
    [next_payload] and [payload_length]. *)
Definition u_int8 (z : Z) : Z := z mod 256.
Definition u_int16 (z : Z) : Z := z mod 65536.

(** What [get_ike_proposals] receives through its two out pointers
    [ike_proposal_t **proposals] and [size_t *proposal_count]: the array the
    caller's pointer designates, and the caller's count. *)
Record ike_proposals_out : Set := {
  out_proposals : list ike_proposal_t;
  out_proposal_count : Z
}.

(** The four local flags of the second pass of [get_ike_proposals]. *)
Record found_flags : Set := {
  encryption_algorithm_found : bool;
  integrity_algorithm_found : bool;
  pseudo_random_function_found : bool;
  diffie_hellman_group_found : bool
}.

Definition none_found : found_flags :=
  {| encryption_algorithm_found := false;
     integrity_algorithm_found := false;
     pseudo_random_function_found := false;
     diffie_hellman_group_found := false |}.

Section SaPayload.

Context `{payload_t proposal_substructure_t}.

(** The body of the [while] loop of [verify], from the proposals the
    iterator has not reached yet.  [proposal_number] is the local variable
    of that name: the loop never assigns it.  The loop leaves with the
    status of the last nested [verify], which is [SUCCESS] unless the loop
    broke there. *)
Fixpoint verify_loop (remaining : list proposal_substructure_t)
    (proposal_number : Z) (first : bool) : status_t :=
  match remaining with
  | [] => SUCCESS
  | current_proposal :: rest =>
      let nested (_ : unit) :=
        let status := payload_verify current_proposal in
        if decide (status <> SUCCESS) then status
        else verify_loop rest proposal_number false in
      if decide (get_proposal_number current_proposal > proposal_number) then
        if first then FAILED
        else if decide (get_proposal_number current_proposal <> proposal_number + 1)
        then FAILED
        else nested tt
      else if decide (get_proposal_number current_proposal < proposal_number) then
        FAILED
      else nested tt
  end.

(** [verify]. *)
Definition verify (this : private_sa_payload_t) : status_t :=
  if critical this then FAILED
  else verify_loop (proposals this) 1 true.

(** [get_type], [get_next_type], [set_next_type]. *)
Definition get_type (this : private_sa_payload_t) : payload_type_t :=
  SECURITY_ASSOCIATION.

Definition get_next_type (this : private_sa_payload_t) : payload_type_t :=
  next_payload this.

Definition set_next_type (this : private_sa_payload_t) (type : payload_type_t)
  : private_sa_payload_t :=
  {| next_payload := u_int8 type;
     critical := critical this;
     payload_length := payload_length this;
     proposals := proposals this |}.

(** The [while] loop of [compute_length]: [length] is the [size_t]
    accumulator.  Its own wrap-around is at a multiple of 65536 and
    disappears in the conversion to [u_int16_t] that follows. *)
Fixpoint compute_length_loop (remaining : list proposal_substructure_t)
    (length : Z) : Z :=
  match remaining with
  | [] => length
  | current_proposal :: rest =>
      compute_length_loop rest (length + payload_get_length current_proposal)
  end.

(** [compute_length]. *)
Definition compute_length (this : private_sa_payload_t) : private_sa_payload_t :=
  let length := compute_length_loop (proposals this) SA_PAYLOAD_HEADER_LENGTH in
  {| next_payload := next_payload this;
     critical := critical this;
     payload_length := u_int16 length;
     proposals := proposals this |}.

(** [get_length]: the value returned, and the payload with its refreshed
    length field. *)
Definition get_length (this : private_sa_payload_t) : Z * private_sa_payload_t :=
  let this := compute_length this in
  (payload_length this, this).

(** [add_proposal_substructure].  [get_count], [get_last] and [insert_last]
    of the linked list are [length], the last position and [++]. *)
Definition add_proposal_substructure (this : private_sa_payload_t)
    (proposal : proposal_substructure_t) : private_sa_payload_t :=
  let count := length (proposals this) in
  let former :=
    if decide (0 < count)%nat
    then alter (fun last_proposal => set_is_last_proposal last_proposal false)
               (count - 1)%nat (proposals this)
    else proposals this in
  let proposal := set_is_last_proposal proposal true in
  compute_length
    {| next_payload := next_payload this;
       critical := critical this;
       payload_length := payload_length this;
       proposals := former ++ [proposal] |}.

(** [sa_payload_create]. *)
Definition sa_payload_create : private_sa_payload_t :=
  {| next_payload := NO_PAYLOAD;
     critical := SA_PAYLOAD_CRITICAL_FLAG;
     payload_length := SA_PAYLOAD_HEADER_LENGTH;
     proposals := [] |}.

(** The [for] loop of [sa_payload_create_from_ike_proposals]: [remaining]
    are the records [proposals[i]], [proposals[i+1]], ... *)
Fixpoint create_from_ike_proposals_loop (remaining : list ike_proposal_t)
    (i : Z) (sa_payload : private_sa_payload_t) : private_sa_payload_t :=
  match remaining with
  | [] => sa_payload
  | r :: rest =>
      let proposal_substructure := proposal_substructure_create in
      let proposal_substructure := set_protocol_id proposal_substructure IKE in
      let proposal_substructure := set_proposal_number proposal_substructure (i + 1) in
      let encryption_algorithm :=
        transform_substructure_create_type ENCRYPTION_ALGORITHM
          (encryption_algorithm r) (encryption_algorithm_key_length r) in
      let proposal_substructure :=
        add_transform_substructure proposal_substructure encryption_algorithm in
      let pseudo_random_function :=
        transform_substructure_create_type PSEUDO_RANDOM_FUNCTION
          (pseudo_random_function r) (pseudo_random_function_key_length r) in
      let proposal_substructure :=
        add_transform_substructure proposal_substructure pseudo_random_function in
      let integrity_algorithm :=
        transform_substructure_create_type INTEGRITY_ALGORITHM
          (integrity_algorithm r) (integrity_algorithm_key_length r) in
      let proposal_substructure :=
        add_transform_substructure proposal_substructure integrity_algorithm in
      let diffie_hellman_group :=
        transform_substructure_create_type DIFFIE_HELLMAN_GROUP
          (diffie_hellman_group r) 0 in
      let proposal_substructure :=
        add_transform_substructure proposal_substructure diffie_hellman_group in
      create_from_ike_proposals_loop rest (i + 1)
        (add_proposal_substructure sa_payload proposal_substructure)
  end.

(** [sa_payload_create_from_ike_proposals]; the array and its count are the
    list [proposals]. *)
Definition sa_payload_create_from_ike_proposals (proposals : list ike_proposal_t)
  : private_sa_payload_t :=
  create_from_ike_proposals_loop proposals 0 sa_payload_create.

End SaPayload.

(** *** [get_ike_proposals] *)

(** The first loop of [get_ike_proposals]: [None] is the [return FAILED]
    inside the loop, [Some n] the value of [found_ike_proposals] after it. *)
Fixpoint count_ike_proposals (remaining : list proposal_substructure_t)
    (found_ike_proposals : nat) : option nat :=
  match remaining with
  | [] => Some found_ike_proposals
  | current_proposal :: rest =>
      if decide (get_protocol_id current_proposal = IKE) then
        if decide (get_transform_count current_proposal <> 4
                   \/ get_spi_size current_proposal <> 0)
        then None
        else count_ike_proposals rest (S found_ike_proposals)
      else count_ike_proposals rest found_ike_proposals
  end.

(** [allocator_alloc(found_ike_proposals * sizeof(ike_proposal_t))]: the
    memory is not initialised, [uninit i] is what cell [i] happens to hold. *)
Definition allocator_alloc (uninit : nat -> ike_proposal_t) (count : nat)
  : list ike_proposal_t :=
  map uninit (seq 0 count).

(** The loop over the transforms of one IKE proposal, writing into
    [tmp_proposals[current_proposal_number]]. *)
Fixpoint scan_transforms (remaining : list transform_substructure_t)
    (current_proposal_number : nat) (tmp_proposals : list ike_proposal_t)
    (found : found_flags) : list ike_proposal_t * found_flags :=
  match remaining with
  | [] => (tmp_proposals, found)
  | current_transform :: rest =>
      let '(tmp_proposals, found) :=
        match get_transform_type current_transform with
        | ENCRYPTION_ALGORITHM =>
            let tmp_proposals :=
              alter (set_encryption_algorithm (get_transform_id current_transform))
                    current_proposal_number tmp_proposals in
            match get_key_length current_transform with
            | Some k =>
                (alter (set_encryption_algorithm_key_length k)
                       current_proposal_number tmp_proposals,
                 {| encryption_algorithm_found := true;
                    integrity_algorithm_found := integrity_algorithm_found found;
                    pseudo_random_function_found := pseudo_random_function_found found;
                    diffie_hellman_group_found := diffie_hellman_group_found found |})
            | None => (tmp_proposals, found)
            end
        | INTEGRITY_ALGORITHM =>
            let tmp_proposals :=
              alter (set_integrity_algorithm (get_transform_id current_transform))
                    current_proposal_number tmp_proposals in
            match get_key_length current_transform with
            | Some k =>
                (alter (set_integrity_algorithm_key_length k)
                       current_proposal_number tmp_proposals,
                 {| encryption_algorithm_found := encryption_algorithm_found found;
                    integrity_algorithm_found := true;
                    pseudo_random_function_found := pseudo_random_function_found found;
                    diffie_hellman_group_found := diffie_hellman_group_found found |})
            | None => (tmp_proposals, found)
            end
        | PSEUDO_RANDOM_FUNCTION =>
            let tmp_proposals :=
              alter (set_pseudo_random_function (get_transform_id current_transform))
                    current_proposal_number tmp_proposals in
            match get_key_length current_transform with
            | Some k =>
                (alter (set_pseudo_random_function_key_length k)
                       current_proposal_number tmp_proposals,
                 {| encryption_algorithm_found := encryption_algorithm_found found;
                    integrity_algorithm_found := integrity_algorithm_found found;
                    pseudo_random_function_found := true;
                    diffie_hellman_group_found := diffie_hellman_group_found found |})
            | None => (tmp_proposals, found)
            end
        | DIFFIE_HELLMAN_GROUP =>
            (alter (set_diffie_hellman_group (get_transform_id current_transform))
                   current_proposal_number tmp_proposals,
             {| encryption_algorithm_found := encryption_algorithm_found found;
                integrity_algorithm_found := integrity_algorithm_found found;
                pseudo_random_function_found := pseudo_random_function_found found;
                diffie_hellman_group_found := true |})
        | OTHER_TRANSFORM_TYPE => (tmp_proposals, found)
        end in
      scan_transforms rest current_proposal_number tmp_proposals found
  end.

(** The second loop of [get_ike_proposals]: [None] is the [return FAILED]
    inside the loop, [Some tmp] the array after the loop. *)
Fixpoint fill_ike_proposals (remaining : list proposal_substructure_t)
    (current_proposal_number : nat) (tmp_proposals : list ike_proposal_t)
  : option (list ike_proposal_t) :=
  match remaining with
  | [] => Some tmp_proposals
  | current_proposal :: rest =>
      if decide (get_protocol_id current_proposal = IKE) then
        let '(tmp_proposals, found) :=
          scan_transforms (transforms current_proposal) current_proposal_number
            tmp_proposals none_found in
        if negb (encryption_algorithm_found found)
           || negb (integrity_algorithm_found found)
           || negb (pseudo_random_function_found found)
           || negb (diffie_hellman_group_found found)
        then None
        else fill_ike_proposals rest (S current_proposal_number) tmp_proposals
      else fill_ike_proposals rest current_proposal_number tmp_proposals
  end.

(** [get_ike_proposals]: the status returned, and the contents of the two out
    parameters when it returns ([out] holds their contents at the call). *)
Definition get_ike_proposals (this : private_sa_payload_t)
    (uninit : nat -> ike_proposal_t) (out : ike_proposals_out)
  : status_t * ike_proposals_out :=
  match count_ike_proposals (proposals this) 0 with
  | None => (FAILED, out)
  | Some found_ike_proposals =>
      if decide (found_ike_proposals = 0)%nat then (NOT_FOUND, out)
      else
        let tmp_proposals := allocator_alloc uninit found_ike_proposals in
        match fill_ike_proposals (proposals this) 0 tmp_proposals with
        | None => (FAILED, out)
        | Some tmp_proposals =>
            (SUCCESS,
             {| out_proposals := tmp_proposals;
                out_proposal_count := Z.of_nat found_ike_proposals |})
        end
  end.

(** ** The proposals as payloads *)

(** Modelled from the spec: the [payload_t] entries of
    [transform_substructure.c] and [proposal_substructure.c], both absent.  A
    transform's verify "always succeeds at this level" and its length is
    "header + optional attribute length"; a proposal's verify "delegates to
    each transform's verify ... first failure short-circuits" and its length
    is "header length + SPI length + sum of each transform's encoded length".
    The two headers take 8 bytes and a key-length attribute 4, as on the IKEv2
    wire. *)
Definition TRANSFORM_SUBSTRUCTURE_HEADER_LENGTH : Z := 8.
Definition KEY_LENGTH_ATTRIBUTE_LENGTH : Z := 4.
Definition PROPOSAL_SUBSTRUCTURE_HEADER_LENGTH : Z := 8.

Definition transform_verify (t : transform_substructure_t) : status_t := SUCCESS.

Definition transform_get_length (t : transform_substructure_t) : Z :=
  TRANSFORM_SUBSTRUCTURE_HEADER_LENGTH
  + match key_length t with
    | Some _ => KEY_LENGTH_ATTRIBUTE_LENGTH
    | None => 0
    end.

Fixpoint proposal_verify_loop (remaining : list transform_substructure_t) : status_t :=
  match remaining with
  | [] => SUCCESS
  | t :: rest =>
      let status := transform_verify t in
      if decide (status <> SUCCESS) then status else proposal_verify_loop rest
  end.

Definition proposal_verify (p : proposal_substructure_t) : status_t :=
  proposal_verify_loop (transforms p).

Definition proposal_get_length (p : proposal_substructure_t) : Z :=
  PROPOSAL_SUBSTRUCTURE_HEADER_LENGTH
  + Z.of_nat (length (spi p))
  + foldr Z.add 0 (transform_get_length <$> transforms p).

Lemma proposal_get_length_size_t (p : proposal_substructure_t) :
  0 <= proposal_get_length p.
Proof.
  unfold proposal_get_length, PROPOSAL_SUBSTRUCTURE_HEADER_LENGTH.
  assert (0 <= foldr Z.add 0 (transform_get_length <$> transforms p)); [|lia].
  induction (transforms p) as [|t ts IH]; [done|].
  rewrite fmap_cons. cbn [foldr].
  assert (0 <= transform_get_length t); [|lia].
  unfold transform_get_length, TRANSFORM_SUBSTRUCTURE_HEADER_LENGTH,
    KEY_LENGTH_ATTRIBUTE_LENGTH.
  destruct (key_length t); lia.
Qed.

#[export] Instance proposal_substructure_payload : payload_t proposal_substructure_t :=
  {| payload_verify := proposal_verify;
     payload_get_length := proposal_get_length;
     payload_get_length_size_t := proposal_get_length_size_t |}.

(** ** Sample objects *)

(** An IKE proposal with the given number and no transforms, and one with
    [n] keyed encryption transforms. *)
Definition numbered_proposal (n : Z) : proposal_substructure_t :=
  set_proposal_number (set_protocol_id proposal_substructure_create IKE) n.

Definition proposal_with_transforms (n : nat) : proposal_substructure_t :=
  {| proposal_number := 1;
     protocol_id := ESP;
     spi := [];
     transforms := replicate n (transform_substructure_create_type ENCRYPTION_ALGORITHM 12 128);
     is_last_proposal := false |}.

(** A payload holding the given proposals, built with
    [add_proposal_substructure]. *)
Definition payload_of (ps : list proposal_substructure_t) : private_sa_payload_t :=
  foldl add_proposal_substructure sa_payload_create ps.

Definition sample_record (k : Z) : ike_proposal_t :=
  {| encryption_algorithm := 12;
     encryption_algorithm_key_length := k;
     integrity_algorithm := 2;
     integrity_algorithm_key_length := 96;
     pseudo_random_function := 2;
     pseudo_random_function_key_length := 160;
     diffie_hellman_group := 14 |}.

Definition zero_record : ike_proposal_t :=
  {| encryption_algorithm := 0;
     encryption_algorithm_key_length := 0;
     integrity_algorithm := 0;
     integrity_algorithm_key_length := 0;
     pseudo_random_function := 0;
     pseudo_random_function_key_length := 0;
     diffie_hellman_group := 0 |}.

Definition empty_out : ike_proposals_out :=
  {| out_proposals := []; out_proposal_count := 0 |}.

(** An IKE proposal without PRF transform (three transforms), and one with the
    four transforms whose encryption transform has no key length. *)
Definition ike_proposal_without_prf : proposal_substructure_t :=
  add_transform_substructure
    (add_transform_substructure
       (add_transform_substructure (numbered_proposal 2)
          (transform_substructure_create_type ENCRYPTION_ALGORITHM 12 128))
       (transform_substructure_create_type INTEGRITY_ALGORITHM 2 96))
    (transform_substructure_create_type DIFFIE_HELLMAN_GROUP 14 0).

Definition unkeyed_encryption : transform_substructure_t :=
  {| transform_type := ENCRYPTION_ALGORITHM;
     transform_id := 3;
     key_length := None;
     is_last_transform := false |}.

Definition ike_proposal_without_key_length : proposal_substructure_t :=
  add_transform_substructure
    (add_transform_substructure
       (add_transform_substructure
          (add_transform_substructure (numbered_proposal 2) unkeyed_encryption)
          (transform_substructure_create_type PSEUDO_RANDOM_FUNCTION 2 160))
       (transform_substructure_create_type INTEGRITY_ALGORITHM 2 96))
    (transform_substructure_create_type DIFFIE_HELLMAN_GROUP 14 0).

(** The proposal substructure that the loop body of
    [sa_payload_create_from_ike_proposals] hands to
    [add_proposal_substructure] for record [r], numbered [n]. *)
Definition ike_proposal_substructure (n : Z) (r : ike_proposal_t)
  : proposal_substructure_t :=
  {| proposal_number := n;
     protocol_id := IKE;
     spi := [];
     transforms :=
       [ {| transform_type := ENCRYPTION_ALGORITHM;
            transform_id := encryption_algorithm r;
            key_length := Some (encryption_algorithm_key_length r);
            is_last_transform := false |};
         {| transform_type := PSEUDO_RANDOM_FUNCTION;
            transform_id := pseudo_random_function r;
            key_length := Some (pseudo_random_function_key_length r);
            is_last_transform := false |};
         {| transform_type := INTEGRITY_ALGORITHM;
            transform_id := integrity_algorithm r;
            key_length := Some (integrity_algorithm_key_length r);
            is_last_transform := false |};
         {| transform_type := DIFFIE_HELLMAN_GROUP;
            transform_id := diffie_hellman_group r;
            key_length := Some 0;
            is_last_transform := true |} ];
     is_last_proposal := true |}.

(** Tests on a transform: it has the given type; it has the given type and
    its key-length query succeeds. *)
Definition has_type (type : transform_type_t) (t : transform_substructure_t) : bool :=
  bool_decide (get_transform_type t = type).

Definition has_type_and_key_length (type : transform_type_t)
    (t : transform_substructure_t) : bool :=
  has_type type t && bool_decide (is_Some (get_key_length t)).

Definition all_found : found_flags :=
  {| encryption_algorithm_found := true;
     integrity_algorithm_found := true;
     pseudo_random_function_found := true;
     diffie_hellman_group_found := true |}.

(** [p] is the proposal substructure of record [r], whatever its number and
    its last-proposal flag. *)
Definition carries (r : ike_proposal_t) (p : proposal_substructure_t) : Prop :=
  exists (n : Z) (b : bool),
    p = set_is_last_proposal (ike_proposal_substructure n r) b.

(** ** [destroy] and the iterators *)

(** Modelled from the spec: [remove_last] of the linked list ("remove-last"),
    the list without its last element and the element handed out, if any. *)
Definition remove_last {A : Type} (l : list A) : list A * option A :=
  (take (length l - 1) l, last l).

Section Destroy.

Import Equations.Prop.Equations.

(** The [while] loop of [destroy]: the proposals left in the list, and the
    proposals on which [destroy] has been called so far, in call order. *)
Equations? destroy_loop (proposals destroyed : list proposal_substructure_t)
  : list proposal_substructure_t * list proposal_substructure_t
  by wf (length proposals) lt :=
  destroy_loop proposals destroyed with decide (0 < length proposals)%nat := {
    | left _ =>
        destroy_loop (remove_last proposals).1
          (destroyed ++ option_list (remove_last proposals).2);
    | right _ => (proposals, destroyed) }.
Proof. cbn. rewrite length_take. lia. Qed.

(** [destroy]: the status, the proposals still in the list when the list
    itself is destroyed, and the proposals destroyed, in call order. *)
Definition destroy (this : private_sa_payload_t)
  : status_t * list proposal_substructure_t * list proposal_substructure_t :=
  let '(left_over, destroyed) := destroy_loop (proposals this) [] in
  (SUCCESS, left_over, destroyed).

End Destroy.

Section Iterators.

Context `{payload_t proposal_substructure_t}.

(** The loop of [verify] once more, counting the calls of
    [iterator->destroy] made inside the loop body. *)
Fixpoint verify_loop_destroys (remaining : list proposal_substructure_t)
    (proposal_number : Z) (first : bool) : nat :=
  match remaining with
  | [] => 0%nat
  | current_proposal :: rest =>
      let nested (_ : unit) :=
        if decide (payload_verify current_proposal <> SUCCESS) then 0%nat
        else verify_loop_destroys rest proposal_number false in
      if decide (get_proposal_number current_proposal > proposal_number) then
        if first then 0%nat
        else if decide (get_proposal_number current_proposal <> proposal_number + 1)
        then 0%nat
        else nested tt
      else if decide (get_proposal_number current_proposal < proposal_number) then
        1%nat
      else nested tt
  end.

(** The number of iterators [verify] creates, and the number of
    [iterator->destroy] calls it makes: one after the loop, plus those of the
    loop body. *)
Definition verify_iterators_created (this : private_sa_payload_t) : nat :=
  if critical this then 0%nat else 1%nat.

Definition verify_iterator_destroys (this : private_sa_payload_t) : nat :=
  if critical this then 0%nat
  else (verify_loop_destroys (proposals this) 1 true + 1)%nat.

End Iterators.

(** What [get_ike_proposals] has done with its iterator over the proposals
    and with [tmp_proposals] when it returns. *)
Record get_ike_proposals_resources : Set := {
  iterator_destroyed : bool;
  tmp_proposals_allocated : bool;
  tmp_proposals_freed : bool
}.

Definition get_ike_proposals_memory (this : private_sa_payload_t)
    (uninit : nat -> ike_proposal_t) : get_ike_proposals_resources :=
  match count_ike_proposals (proposals this) 0 with
  | None =>
      {| iterator_destroyed := true;
         tmp_proposals_allocated := false;
         tmp_proposals_freed := false |}
  | Some found_ike_proposals =>
      if decide (found_ike_proposals = 0)%nat then
        {| iterator_destroyed := true;
           tmp_proposals_allocated := false;
           tmp_proposals_freed := false |}
      else
        let tmp_proposals := allocator_alloc uninit found_ike_proposals in
        match fill_ike_proposals (proposals this) 0 tmp_proposals with
        | None =>
            {| iterator_destroyed := false;
               tmp_proposals_allocated := true;
               tmp_proposals_freed := true |}
        | Some _ =>
            {| iterator_destroyed := true;
               tmp_proposals_allocated := true;
               tmp_proposals_freed := false |}
        end
  end.

(** ** Predicates of the statements *)

(** The numberings [verify] lets pass: none, or a first number 1 followed by
    numbers 1 or 2. *)
Definition numbering_accepted (numbers : list Z) : bool :=
  match numbers with
  | [] => true
  | n :: later =>
      bool_decide (n = 1) && forallb (fun m => bool_decide (m = 1 \/ m = 1 + 1)) later
  end.

(** The last-proposal flag is set on the last proposal and on no other. *)
Definition last_flag_ok (ps : list proposal_substructure_t) : Prop :=
  forall (i : nat) (q : proposal_substructure_t),
    ps !! i = Some q -> (is_last_proposal q = true <-> S i = length ps).

(** The length field holds what [compute_length] would store. *)
Definition length_field_ok `{payload_t proposal_substructure_t}
    (this : private_sa_payload_t) : Prop :=
  payload_length this
  = u_int16 (SA_PAYLOAD_HEADER_LENGTH
             + foldr Z.add 0 (payload_get_length <$> proposals this)).

(** The IKE proposals of a list, and the test both passes of
    [get_ike_proposals] make on one of them. *)
Definition ike_proposals_of (ps : list proposal_substructure_t)
  : list proposal_substructure_t :=
  filter (fun p => get_protocol_id p = IKE) ps.

Definition ike_proposal_shaped (p : proposal_substructure_t) : bool :=
  bool_decide (get_transform_count p = 4 /\ get_spi_size p = 0).

Definition ike_proposal_complete (p : proposal_substructure_t) : bool :=
  existsb (has_type_and_key_length ENCRYPTION_ALGORITHM) (transforms p)
  && existsb (has_type_and_key_length INTEGRITY_ALGORITHM) (transforms p)
  && existsb (has_type_and_key_length PSEUDO_RANDOM_FUNCTION) (transforms p)
  && existsb (has_type DIFFIE_HELLMAN_GROUP) (transforms p).

(** Two cells of [tmp_proposals] hold the same values in the fields whose
    flag is set. *)
Definition agree_on (found : found_flags) (c1 c2 : ike_proposal_t) : Prop :=
  (encryption_algorithm_found found = true ->
   encryption_algorithm c1 = encryption_algorithm c2
   /\ encryption_algorithm_key_length c1 = encryption_algorithm_key_length c2)
  /\ (integrity_algorithm_found found = true ->
      integrity_algorithm c1 = integrity_algorithm c2
      /\ integrity_algorithm_key_length c1 = integrity_algorithm_key_length c2)
  /\ (pseudo_random_function_found found = true ->
      pseudo_random_function c1 = pseudo_random_function c2
      /\ pseudo_random_function_key_length c1 = pseudo_random_function_key_length c2)
  /\ (diffie_hellman_group_found found = true ->
      diffie_hellman_group c1 = diffie_hellman_group c2).

(** Record [r] reports transform [t]: the field of its type holds its id
    and, for the three keyed types, its key length. *)
Definition transform_reported (t : transform_substructure_t) (r : ike_proposal_t)
  : Prop :=
  match get_transform_type t with
  | ENCRYPTION_ALGORITHM =>
      get_transform_id t = encryption_algorithm r
      /\ get_key_length t = Some (encryption_algorithm_key_length r)
  | INTEGRITY_ALGORITHM =>
      get_transform_id t = integrity_algorithm r
      /\ get_key_length t = Some (integrity_algorithm_key_length r)
  | PSEUDO_RANDOM_FUNCTION =>
      get_transform_id t = pseudo_random_function r
      /\ get_key_length t = Some (pseudo_random_function_key_length r)
  | DIFFIE_HELLMAN_GROUP => get_transform_id t = diffie_hellman_group r
  | OTHER_TRANSFORM_TYPE => False
  end.

(** Cell [c] holds what the scan writes for transform [t]. *)
Definition transform_written (t : transform_substructure_t) (c : ike_proposal_t)
  : Prop :=
  match get_transform_type t with
  | ENCRYPTION_ALGORITHM =>
      get_transform_id t = encryption_algorithm c
      /\ forall k, get_key_length t = Some k -> encryption_algorithm_key_length c = k
  | INTEGRITY_ALGORITHM =>
      get_transform_id t = integrity_algorithm c
      /\ forall k, get_key_length t = Some k -> integrity_algorithm_key_length c = k
  | PSEUDO_RANDOM_FUNCTION =>
      get_transform_id t = pseudo_random_function c
      /\ forall k, get_key_length t = Some k -> pseudo_random_function_key_length c = k
  | DIFFIE_HELLMAN_GROUP => get_transform_id t = diffie_hellman_group c
  | OTHER_TRANSFORM_TYPE => True
  end.

(** Two cells hold the same in the fields of one transform type. *)
Definition same_fields (type : transform_type_t) (c c' : ike_proposal_t) : Prop :=
  match type with
  | ENCRYPTION_ALGORITHM =>
      encryption_algorithm c = encryption_algorithm c'
      /\ encryption_algorithm_key_length c = encryption_algorithm_key_length c'
  | INTEGRITY_ALGORITHM =>
      integrity_algorithm c = integrity_algorithm c'
      /\ integrity_algorithm_key_length c = integrity_algorithm_key_length c'
  | PSEUDO_RANDOM_FUNCTION =>
      pseudo_random_function c = pseudo_random_function c'
      /\ pseudo_random_function_key_length c = pseudo_random_function_key_length c'
  | DIFFIE_HELLMAN_GROUP => diffie_hellman_group c = diffie_hellman_group c'
  | OTHER_TRANSFORM_TYPE => True
  end.

(** The payload with other proposals. *)
Definition with_proposals (this : private_sa_payload_t)
    (ps : list proposal_substructure_t) : private_sa_payload_t :=
  {| next_payload := next_payload this;
     critical := critical this;
     payload_length := payload_length this;
     proposals := ps |}.

(** * Properties *)

(** ** [verify] *)

Section Verify.

Context `{payload_t proposal_substructure_t}.

(** With proposals that pass their own verify, the loop compares every
    number with the constant it started from. *)
Lemma verify_loop_later (ps : list proposal_substructure_t) (n : Z) :
  Forall (fun p => payload_verify p = SUCCESS) ps ->
  verify_loop ps n false =
    if forallb (fun p => bool_decide (get_proposal_number p = n
                                      \/ get_proposal_number p = n + 1)) ps
    then SUCCESS else FAILED.
Proof.
  induction 1 as [|p ps Hp _ IH]; [done|].
  cbn [verify_loop forallb]. rewrite Hp, IH.
  repeat case_decide; repeat case_bool_decide; simpl; try done; lia.
Qed.

Lemma verify_loop_first (p : proposal_substructure_t)
    (ps : list proposal_substructure_t) (n : Z) :
  Forall (fun p => payload_verify p = SUCCESS) (p :: ps) ->
  verify_loop (p :: ps) n true =
    if bool_decide (get_proposal_number p = n)
    then verify_loop ps n false else FAILED.
Proof.
  intros Hall. apply Forall_cons in Hall as [Hp _].
  cbn [verify_loop]. rewrite Hp.
  repeat case_decide; case_bool_decide; try done; lia.
Qed.

(** C4: a payload whose critical flag is set fails [verify] at once,
    whatever its proposals are and whatever their own verify would
    answer. *)
Theorem verify_critical_fails (this : private_sa_payload_t) :
  critical this = true -> verify this = FAILED.
Proof. intros Hc. unfold verify. by rewrite Hc. Qed.

(** C10: [sa_payload_create] gives next payload type [NO_PAYLOAD], a
    payload length of the 4 header bytes, no proposals, and a payload that
    [verify] accepts. *)
Theorem sa_payload_create_fresh :
  get_next_type sa_payload_create = NO_PAYLOAD
  /\ payload_length sa_payload_create = SA_PAYLOAD_HEADER_LENGTH
  /\ SA_PAYLOAD_HEADER_LENGTH = 4
  /\ (get_length sa_payload_create).1 = 4
  /\ proposals sa_payload_create = []
  /\ critical sa_payload_create = false
  /\ verify sa_payload_create = SUCCESS.
Proof. by repeat split. Qed.

(** C1: what [verify] answers on the four numberings, for a payload with
    the critical flag clear whose proposals pass their own verify:
    [1;1;2] is accepted, [1;3] and [2;1] are rejected, and [1;2;3] is
    rejected too, since [proposal_number] remains 1 and the third
    proposal is compared with 2. *)
Theorem verify_numbering_1_2_3_rejected (this : private_sa_payload_t) :
  critical this = false ->
  Forall (fun p => payload_verify p = SUCCESS) (proposals this) ->
  (get_proposal_number <$> proposals this = [1; 2; 3] -> verify this = FAILED)
  /\ (get_proposal_number <$> proposals this = [1; 1; 2] -> verify this = SUCCESS)
  /\ (get_proposal_number <$> proposals this = [1; 3] -> verify this = FAILED)
  /\ (get_proposal_number <$> proposals this = [2; 1] -> verify this = FAILED).
Proof.
  intros Hc Hall. unfold verify. rewrite Hc.
  repeat split; intros Hnum;
    destruct (proposals this) as [|p1 [|p2 [|p3 [|p4 ps]]]];
    cbn in Hnum; try discriminate Hnum; simplify_eq;
    rewrite verify_loop_first by done;
    (rewrite verify_loop_later by (by apply Forall_cons in Hall as [_ Hall]));
    cbn [forallb];
    repeat match goal with E : get_proposal_number _ = _ |- _ => rewrite E; clear E end;
    done.
Qed.

End Verify.

Lemma verify_critical_fails_witness :
  let this :=
    {| next_payload := NO_PAYLOAD; critical := true;
       payload_length := 4; proposals := [numbered_proposal 1] |} in
  critical this = true /\ verify this = FAILED.
Proof. split; [reflexivity | apply verify_critical_fails; reflexivity]. Defined.

Lemma verify_numbering_1_2_3_rejected_witness :
  let this := payload_of [numbered_proposal 1; numbered_proposal 2; numbered_proposal 3] in
  critical this = false
  /\ get_proposal_number <$> proposals this = [1; 2; 3]
  /\ verify this = FAILED.
Proof.
  intros this. split; [reflexivity|]. split; [reflexivity|].
  refine (proj1 (verify_numbering_1_2_3_rejected this _ _) _);
    [reflexivity | repeat constructor | reflexivity].
Defined.

(** ** [compute_length], [get_length] and [add_proposal_substructure] *)

Section Length.

Context `{payload_t proposal_substructure_t}.

(** Header length plus the proposals' own lengths, as an integer. *)
Local Abbreviation total_length ps :=
  (SA_PAYLOAD_HEADER_LENGTH + foldr Z.add 0 (payload_get_length <$> ps)).

Lemma compute_length_loop_sum (ps : list proposal_substructure_t) (acc : Z) :
  compute_length_loop ps acc = acc + foldr Z.add 0 (payload_get_length <$> ps).
Proof.
  revert acc. induction ps as [|p ps IH]; intros acc; csimpl; [lia|].
  rewrite IH. lia.
Qed.

Lemma lengths_sum_nonneg (ps : list proposal_substructure_t) :
  0 <= foldr Z.add 0 (payload_get_length <$> ps).
Proof.
  induction ps as [|p ps IH]; csimpl; [lia|].
  pose proof (payload_get_length_size_t p). lia.
Qed.

Lemma get_length_value (this : private_sa_payload_t) :
  (get_length this).1 = total_length (proposals this) mod 65536.
Proof.
  unfold get_length, compute_length, u_int16. simpl.
  by rewrite compute_length_loop_sum.
Qed.

Lemma proposals_add (this : private_sa_payload_t) (p : proposal_substructure_t) :
  proposals (add_proposal_substructure this p) =
    (if decide (0 < length (proposals this))%nat
     then alter (fun q => set_is_last_proposal q false)
            (length (proposals this) - 1)%nat (proposals this)
     else proposals this) ++ [set_is_last_proposal p true].
Proof. reflexivity. Qed.

Lemma lengths_sum_alter (f : proposal_substructure_t -> proposal_substructure_t)
    (i : nat) (ps : list proposal_substructure_t) :
  (forall p, payload_get_length (f p) = payload_get_length p) ->
  foldr Z.add 0 (payload_get_length <$> alter f i ps)
  = foldr Z.add 0 (payload_get_length <$> ps).
Proof.
  intros Hf. revert i. induction ps as [|p ps IH]; intros [|i]; csimpl; try done.
  - by rewrite Hf.
  - by rewrite IH.
Qed.

Lemma lengths_sum_snoc (ps : list proposal_substructure_t)
    (p : proposal_substructure_t) :
  foldr Z.add 0 (payload_get_length <$> ps ++ [p])
  = foldr Z.add 0 (payload_get_length <$> ps) + payload_get_length p.
Proof. induction ps as [|q ps IH]; csimpl; [lia|]. rewrite IH. lia. Qed.

(** C6, for payloads that fit the 16-bit length field: [get_length]
    returns the 4 header bytes plus the sum of the proposals' lengths when
    that total is below 65536, and that total modulo 65536 in general; a
    second [get_length] returns the same value; and, for proposals whose
    length does not depend on their last-proposal flag,
    [add_proposal_substructure] raises the value by the added proposal's
    length as long as the new total stays below 65536. *)
Theorem get_length_header_plus_proposals (this : private_sa_payload_t) :
  (get_length this).1 = total_length (proposals this) mod 65536
  /\ (total_length (proposals this) < 65536 ->
      (get_length this).1 = total_length (proposals this))
  /\ (get_length (get_length this).2).1 = (get_length this).1
  /\ (forall proposal : proposal_substructure_t,
        (forall p b, payload_get_length (set_is_last_proposal p b)
                     = payload_get_length p) ->
        total_length (proposals this) + payload_get_length proposal < 65536 ->
        (get_length (add_proposal_substructure this proposal)).1
        = (get_length this).1 + payload_get_length proposal).
Proof.
  pose proof (lengths_sum_nonneg (proposals this)) as Hsum.
  assert (SA_PAYLOAD_HEADER_LENGTH = 4) as Hhdr by reflexivity.
  split; [apply get_length_value|].
  split.
  { intros Hfit. rewrite get_length_value. apply Z.mod_small. lia. }
  split; [reflexivity|].
  intros proposal Hflag Hfit.
  pose proof (payload_get_length_size_t proposal) as Hp.
  rewrite !get_length_value, proposals_add, lengths_sum_snoc, Hflag.
  assert (foldr Z.add 0 (payload_get_length <$>
            (if decide (0 < length (proposals this))%nat
             then alter (fun q => set_is_last_proposal q false)
                    (length (proposals this) - 1)%nat (proposals this)
             else proposals this))
          = foldr Z.add 0 (payload_get_length <$> proposals this)) as ->.
  { case_decide; [|done]. apply lengths_sum_alter. intros p. apply Hflag. }
  rewrite !Z.mod_small by lia. lia.
Qed.

End Length.

Lemma get_length_header_plus_proposals_witness :
  let this := payload_of [proposal_with_transforms 2] in
  let proposal := proposal_with_transforms 3 in
  SA_PAYLOAD_HEADER_LENGTH + foldr Z.add 0 (payload_get_length <$> proposals this)
    + payload_get_length proposal < 65536
  /\ (get_length (add_proposal_substructure this proposal)).1
     = (get_length this).1 + payload_get_length proposal.
Proof.
  intros this proposal. split; [reflexivity|].
  apply (proj2 (proj2 (proj2 (get_length_header_plus_proposals this))) proposal);
    [intros p b; reflexivity | reflexivity].
Defined.

(** C6 as stated fails on a payload that does not fit the 16-bit length
    field: with two proposals of 36008 bytes each, the header and the proposals
    make 72020 bytes and [get_length] returns 6484. *)
Lemma get_length_wraps_counterexample :
  let this := payload_of [proposal_with_transforms 3000; proposal_with_transforms 3000] in
  payload_get_length <$> proposals this = [36008; 36008]
  /\ (get_length this).1 = 6484
  /\ (get_length this).1
     <> SA_PAYLOAD_HEADER_LENGTH + foldr Z.add 0 (payload_get_length <$> proposals this).
Proof.
  intros this. split; [by vm_compute|]. split; [by vm_compute|].
  vm_compute. discriminate.
Qed.

(** ** The proposal list under [add_proposal_substructure] *)

Section Proposals.

Context `{payload_t proposal_substructure_t}.

(** The proposals after a non-empty run of [add_proposal_substructure] on a
    fresh payload: all but the last one have lost their flag. *)
Lemma proposals_after_adds (adds : list proposal_substructure_t)
    (p : proposal_substructure_t) :
  proposals (foldl add_proposal_substructure sa_payload_create (adds ++ [p]))
  = ((fun q => set_is_last_proposal q false) <$> adds)
    ++ [set_is_last_proposal p true].
Proof.
  revert p. induction adds as [|q adds IH] using rev_ind; intros p; [done|].
  rewrite foldl_app. cbn [foldl]. rewrite proposals_add, IH.
  rewrite length_app, length_fmap. cbn [length].
  rewrite decide_True by lia.
  rewrite alter_app_r_alt by (rewrite length_fmap; lia).
  rewrite length_fmap.
  replace (length adds + 1 - 1 - length adds)%nat with 0%nat by lia.
  by rewrite fmap_app.
Qed.

(** C7: after a non-empty run of [add_proposal_substructure] calls on a
    fresh payload, the proposal at position [i] has its last-proposal flag
    set exactly when [i] is the last position, and the proposal there is
    the one added last. *)
Theorem last_proposal_flag_unique (adds : list proposal_substructure_t)
    (p : proposal_substructure_t) :
  let this := foldl add_proposal_substructure sa_payload_create (adds ++ [p]) in
  length (proposals this) = length (adds ++ [p])
  /\ last (proposals this) = Some (set_is_last_proposal p true)
  /\ length (filter (fun q => is_last_proposal q = true) (proposals this)) = 1%nat
  /\ forall (i : nat) (q : proposal_substructure_t),
       proposals this !! i = Some q ->
       (is_last_proposal q = true <-> i = length adds).
Proof.
  intros this. unfold this. rewrite proposals_after_adds.
  split; [by rewrite !length_app, length_fmap|].
  split; [by rewrite last_snoc|].
  split.
  { rewrite filter_app, length_app.
    replace (filter _ (_ <$> adds)) with (@nil proposal_substructure_t); [done|].
    symmetry. induction adds as [|a adds IH]; [done|].
    csimpl. by rewrite filter_cons_False. }
  intros i q Hq.
  destruct (decide (i < length adds)%nat) as [Hlt|Hge].
  - rewrite lookup_app_l in Hq by (by rewrite length_fmap).
    rewrite list_lookup_fmap in Hq.
    destruct (adds !! i); simplify_eq/=. split; [done | lia].
  - rewrite lookup_app_r in Hq by (rewrite length_fmap; lia).
    rewrite length_fmap in Hq.
    destruct (i - length adds)%nat as [|k] eqn:Hk; simplify_eq/=.
    split; [lia | done].
Qed.

(** The loop of [sa_payload_create_from_ike_proposals] is a run of
    [add_proposal_substructure]. *)
Lemma create_from_ike_proposals_loop_adds (records : list ike_proposal_t)
    (i : Z) (sa_payload : private_sa_payload_t) :
  create_from_ike_proposals_loop records i sa_payload
  = foldl add_proposal_substructure sa_payload
      (imap (fun k r => ike_proposal_substructure (i + Z.of_nat k + 1) r) records).
Proof.
  revert i sa_payload.
  induction records as [|r records IH]; intros i sa_payload; [done|].
  cbn [create_from_ike_proposals_loop imap foldl]. rewrite IH.
  replace (i + Z.of_nat 0 + 1) with (i + 1) by lia.
  f_equal. apply imap_ext. intros k x _. simpl. f_equal. lia.
Qed.

(** The proposals of [sa_payload_create_from_ike_proposals], position by
    position. *)
Lemma create_from_ike_proposals_lookup (records : list ike_proposal_t)
    (i : nat) (r : ike_proposal_t) :
  records !! i = Some r ->
  exists b : bool,
    proposals (sa_payload_create_from_ike_proposals records) !! i
    = Some (set_is_last_proposal (ike_proposal_substructure (Z.of_nat i + 1) r) b).
Proof.
  intros Hr. unfold sa_payload_create_from_ike_proposals.
  rewrite create_from_ike_proposals_loop_adds.
  destruct records as [|r0 records0] using rev_ind; [done|]. clear IHrecords0.
  rewrite imap_app. cbn [imap]. rewrite proposals_after_adds.
  destruct (decide (i < length records0)%nat) as [Hlt|Hge].
  - rewrite lookup_app_l in Hr by done.
    rewrite lookup_app_l by (by rewrite length_fmap, length_imap).
    rewrite list_lookup_fmap, list_lookup_imap, Hr. by eexists.
  - rewrite lookup_app_r in Hr by lia.
    rewrite lookup_app_r by (rewrite length_fmap, length_imap; lia).
    rewrite length_fmap, length_imap.
    destruct (i - length records0)%nat as [|k] eqn:Hk; simplify_eq/=.
    replace (length records0 + 0)%nat with i by lia. by eexists.
Qed.

Lemma create_from_ike_proposals_length (records : list ike_proposal_t) :
  length (proposals (sa_payload_create_from_ike_proposals records))
  = length records.
Proof.
  unfold sa_payload_create_from_ike_proposals.
  rewrite create_from_ike_proposals_loop_adds.
  destruct records as [|r0 records0] using rev_ind; [done|]. clear IHrecords0.
  rewrite imap_app. cbn [imap]. rewrite proposals_after_adds.
  by rewrite !length_app, length_fmap, length_imap.
Qed.

(** C8: [sa_payload_create_from_ike_proposals] yields as many proposals as
    records, and the proposal at 0-based position [i] has protocol id IKE,
    proposal number [i + 1], and exactly four transforms: encryption, PRF,
    integrity and DH group, in this order, with the ids and key lengths of
    record [i]. *)
Theorem create_from_ike_proposals_shape (records : list ike_proposal_t) :
  let this := sa_payload_create_from_ike_proposals records in
  length (proposals this) = length records
  /\ forall (i : nat) (r : ike_proposal_t),
       records !! i = Some r ->
       exists p : proposal_substructure_t,
         proposals this !! i = Some p
         /\ get_protocol_id p = IKE
         /\ get_proposal_number p = Z.of_nat i + 1
         /\ get_transform_count p = 4
         /\ (fun t => (get_transform_type t, get_transform_id t, get_key_length t))
              <$> transforms p
            = [ (ENCRYPTION_ALGORITHM, encryption_algorithm r,
                 Some (encryption_algorithm_key_length r));
                (PSEUDO_RANDOM_FUNCTION, pseudo_random_function r,
                 Some (pseudo_random_function_key_length r));
                (INTEGRITY_ALGORITHM, integrity_algorithm r,
                 Some (integrity_algorithm_key_length r));
                (DIFFIE_HELLMAN_GROUP, diffie_hellman_group r, Some 0) ].
Proof.
  intros this. split; [apply create_from_ike_proposals_length|].
  intros i r Hr.
  destruct (create_from_ike_proposals_lookup records i r Hr) as [b Hp].
  eexists. split; [exact Hp|]. by repeat split.
Qed.

End Proposals.

Lemma last_proposal_flag_unique_witness :
  let this := payload_of [numbered_proposal 1; numbered_proposal 2] in
  let q := set_is_last_proposal (numbered_proposal 2) true in
  proposals this !! 1%nat = Some q
  /\ (is_last_proposal q = true <-> 1%nat = length [numbered_proposal 1]).
Proof.
  intros this q. split; [reflexivity|].
  exact (proj2 (proj2 (proj2
    (last_proposal_flag_unique [numbered_proposal 1] (numbered_proposal 2))))
    1%nat q eq_refl).
Defined.

Lemma create_from_ike_proposals_shape_witness :
  let records := [sample_record 128; sample_record 256] in
  records !! 1%nat = Some (sample_record 256)
  /\ exists p : proposal_substructure_t,
       proposals (sa_payload_create_from_ike_proposals records) !! 1%nat = Some p
       /\ get_protocol_id p = IKE
       /\ get_proposal_number p = 2
       /\ get_transform_count p = 4
       /\ (fun t => (get_transform_type t, get_transform_id t, get_key_length t))
            <$> transforms p
          = [ (ENCRYPTION_ALGORITHM, 12, Some 256);
              (PSEUDO_RANDOM_FUNCTION, 2, Some 160);
              (INTEGRITY_ALGORITHM, 2, Some 96);
              (DIFFIE_HELLMAN_GROUP, 14, Some 0) ].
Proof.
  intros records. split; [reflexivity|].
  exact (proj2 (create_from_ike_proposals_shape records) 1%nat (sample_record 256) eq_refl).
Defined.

(** ** [get_ike_proposals] *)

Section Extraction.

Implicit Types (ps : list proposal_substructure_t) (p : proposal_substructure_t).
Implicit Types (ts : list transform_substructure_t) (t : transform_substructure_t).
Implicit Types (tmp : list ike_proposal_t) (found : found_flags).

(** *** The first pass *)

Lemma count_ike_proposals_no_ike ps (acc : nat) :
  Forall (fun p => get_protocol_id p <> IKE) ps ->
  count_ike_proposals ps acc = Some acc.
Proof.
  induction 1 as [|p ps Hp _ IH]; [done|].
  cbn [count_ike_proposals]. by rewrite decide_False.
Qed.

Lemma count_ike_proposals_malformed ps p (acc : nat) :
  p ∈ ps -> get_protocol_id p = IKE ->
  get_transform_count p <> 4 \/ get_spi_size p <> 0 ->
  count_ike_proposals ps acc = None.
Proof.
  intros Hin Hike Hbad. revert acc.
  induction Hin as [p ps|p q ps _ IH]; intros acc; cbn [count_ike_proposals].
  - by rewrite !decide_True.
  - repeat case_decide; auto.
Qed.

Lemma count_ike_proposals_mono ps (acc n : nat) :
  count_ike_proposals ps acc = Some n -> (acc <= n)%nat.
Proof.
  revert acc. induction ps as [|q ps IH]; intros acc; cbn [count_ike_proposals].
  - intros [= ->]. lia.
  - repeat case_decide; try done; intros Hn; apply IH in Hn; lia.
Qed.

Lemma count_ike_proposals_positive ps p (acc n : nat) :
  p ∈ ps -> get_protocol_id p = IKE ->
  count_ike_proposals ps acc = Some n -> (acc < n)%nat.
Proof.
  intros Hin Hike. revert acc.
  induction Hin as [p ps|p q ps _ IH]; intros acc; cbn [count_ike_proposals].
  - rewrite decide_True by done. case_decide; [done|].
    intros Hn. apply count_ike_proposals_mono in Hn. lia.
  - specialize (IH Hike).
    repeat case_decide; try done; intros Hn; apply IH in Hn; lia.
Qed.

(** *** The flags of the second pass *)

(** The flags after the scan of a proposal's transforms depend on the
    transforms only. *)
Lemma scan_transforms_found ts (n : nat) tmp found :
  let found' := (scan_transforms ts n tmp found).2 in
  encryption_algorithm_found found'
    = encryption_algorithm_found found
      || existsb (has_type_and_key_length ENCRYPTION_ALGORITHM) ts
  /\ integrity_algorithm_found found'
    = integrity_algorithm_found found
      || existsb (has_type_and_key_length INTEGRITY_ALGORITHM) ts
  /\ pseudo_random_function_found found'
    = pseudo_random_function_found found
      || existsb (has_type_and_key_length PSEUDO_RANDOM_FUNCTION) ts
  /\ diffie_hellman_group_found found'
    = diffie_hellman_group_found found
      || existsb (has_type DIFFIE_HELLMAN_GROUP) ts.
Proof.
  revert tmp found. induction ts as [|t ts IH]; intros tmp found.
  { cbn. by rewrite !orb_false_r. }
  cbn [scan_transforms existsb].
  unfold has_type_and_key_length, has_type, get_transform_type, get_key_length.
  destruct t as [type id [k|] l]; destruct type; cbn [transform_type key_length];
    match goal with
    | |- context [scan_transforms ts n ?tmp' ?found'] =>
        destruct (IH tmp' found') as (-> & -> & -> & ->)
    end;
    cbn; by rewrite ?orb_true_r, ?orb_false_r.
Qed.

Lemma fill_ike_proposals_fails ps p :
  p ∈ ps -> get_protocol_id p = IKE ->
  existsb (has_type_and_key_length ENCRYPTION_ALGORITHM) (transforms p)
  && existsb (has_type_and_key_length INTEGRITY_ALGORITHM) (transforms p)
  && existsb (has_type_and_key_length PSEUDO_RANDOM_FUNCTION) (transforms p)
  && existsb (has_type DIFFIE_HELLMAN_GROUP) (transforms p) = false ->
  forall (n : nat) tmp, fill_ike_proposals ps n tmp = None.
Proof.
  intros Hin Hike Hmiss.
  induction Hin as [p ps|p q ps _ IH]; intros n tmp; cbn [fill_ike_proposals].
  - rewrite decide_True by done.
    pose proof (scan_transforms_found (transforms p) n tmp none_found) as Hf.
    destruct (scan_transforms (transforms p) n tmp none_found) as [tmp' found'].
    cbn in Hf. destruct Hf as (He & Hi & Hp & Hd).
    rewrite He, Hi, Hp, Hd.
    repeat match type of Hmiss with
           | context [existsb ?f ?l] => destruct (existsb f l)
           end; done.
  - case_decide; [|by apply IH].
    destruct (scan_transforms (transforms q) n tmp none_found) as [tmp' found'].
    destruct (_ || _); [done | by apply IH].
Qed.

(** An IKE proposal lacking a usable transform of one kind makes the whole
    call fail and leaves the out parameters as they were. *)
Lemma get_ike_proposals_fails_at (this : private_sa_payload_t)
    (uninit : nat -> ike_proposal_t) (out : ike_proposals_out) p :
  p ∈ proposals this -> get_protocol_id p = IKE ->
  existsb (has_type_and_key_length ENCRYPTION_ALGORITHM) (transforms p)
  && existsb (has_type_and_key_length INTEGRITY_ALGORITHM) (transforms p)
  && existsb (has_type_and_key_length PSEUDO_RANDOM_FUNCTION) (transforms p)
  && existsb (has_type DIFFIE_HELLMAN_GROUP) (transforms p) = false ->
  get_ike_proposals this uninit out = (FAILED, out).
Proof.
  intros Hin Hike Hmiss. unfold get_ike_proposals.
  destruct (count_ike_proposals (proposals this) 0) as [found|] eqn:Hcount; [|done].
  apply (count_ike_proposals_positive _ p) in Hcount; [|done..].
  rewrite decide_False by lia.
  by rewrite (fill_ike_proposals_fails _ p).
Qed.

Lemma existsb_false_iff {A} (f : A -> bool) (l : list A) :
  existsb f l = false <-> forall x, x ∈ l -> f x = false.
Proof.
  induction l as [|a l IH]; cbn [existsb].
  - split; [intros _ x Hx; by apply elem_of_nil in Hx | done].
  - rewrite orb_false_iff, IH. split.
    + intros [Ha Hl] x [->|Hx]%elem_of_cons; auto.
    + intros Hall. split; [apply Hall; left | intros x Hx; apply Hall; by right].
Qed.

Lemma NoDup_fmap_eq {A B} (f : A -> B) (l : list A) (x y : A) :
  NoDup (f <$> l) -> x ∈ l -> y ∈ l -> f x = f y -> x = y.
Proof.
  induction l as [|a l IH]; csimpl; [by intros _ ?%elem_of_nil|].
  intros [Ha Hl]%NoDup_cons [->|Hx]%elem_of_cons [->|Hy]%elem_of_cons Hxy;
    [done| | |by apply IH].
  - destruct Ha. rewrite Hxy. by apply list_elem_of_fmap_2.
  - destruct Ha. rewrite <- Hxy. by apply list_elem_of_fmap_2.
Qed.

(** C5: without any proposal of protocol id IKE (in particular without any
    proposal), [get_ike_proposals] returns [NOT_FOUND], not [FAILED], and
    the out parameters keep what they held. *)
Theorem get_ike_proposals_not_found (this : private_sa_payload_t)
    (uninit : nat -> ike_proposal_t) (out : ike_proposals_out) :
  Forall (fun p => get_protocol_id p <> IKE) (proposals this) ->
  get_ike_proposals this uninit out = (NOT_FOUND, out)
  /\ (get_ike_proposals this uninit out).1 <> FAILED.
Proof.
  intros Hno. unfold get_ike_proposals.
  by rewrite count_ike_proposals_no_ike.
Qed.

(** C3: an IKE proposal with a transform count other than 4, or a
    non-empty SPI, or none of its transforms of one of the four required
    types, makes [get_ike_proposals] return [FAILED] whatever the other
    proposals are, and the out parameters keep what they held. *)
Theorem get_ike_proposals_structural_failure (this : private_sa_payload_t)
    (uninit : nat -> ike_proposal_t) (out : ike_proposals_out) p :
  p ∈ proposals this ->
  get_protocol_id p = IKE ->
  get_transform_count p <> 4
  \/ get_spi_size p <> 0
  \/ (exists type,
        type ∈ [ENCRYPTION_ALGORITHM; INTEGRITY_ALGORITHM;
                PSEUDO_RANDOM_FUNCTION; DIFFIE_HELLMAN_GROUP]
        /\ forall t, t ∈ transforms p -> get_transform_type t <> type) ->
  get_ike_proposals this uninit out = (FAILED, out).
Proof.
  intros Hin Hike Hbad.
  assert (get_transform_count p <> 4 \/ get_spi_size p <> 0
          \/ exists type,
               type ∈ [ENCRYPTION_ALGORITHM; INTEGRITY_ALGORITHM;
                       PSEUDO_RANDOM_FUNCTION; DIFFIE_HELLMAN_GROUP]
               /\ existsb (has_type type) (transforms p) = false)
    as [Hcount|[Hspi|(type & Htype & Hnone)]].
  { destruct Hbad as [?|[?|(type & Htype & Hnone)]]; auto.
    right; right. exists type. split; [done|].
    apply existsb_false_iff. intros t Ht. by apply bool_decide_eq_false, Hnone. }
  - unfold get_ike_proposals.
    by rewrite (count_ike_proposals_malformed _ p) by auto.
  - unfold get_ike_proposals.
    by rewrite (count_ike_proposals_malformed _ p) by auto.
  - apply (get_ike_proposals_fails_at _ _ _ p); [done..|].
    assert (existsb (has_type_and_key_length type) (transforms p) = false) as Hkeyed.
    { apply existsb_false_iff. intros t Ht.
      rewrite existsb_false_iff in Hnone. unfold has_type_and_key_length.
      by rewrite (Hnone t Ht). }
    repeat (apply elem_of_cons in Htype as [->|Htype]);
      [..|by apply elem_of_nil in Htype];
      rewrite ?Hkeyed, ?Hnone, ?andb_false_r; done.
Qed.

(** C9: after the scan of a proposal's transforms, the encryption,
    integrity and PRF flags are set exactly when some transform of that type
    answered its key-length query, the DH flag exactly when some transform
    has that type; so an IKE proposal with empty SPI and one transform of
    each of the four types, whose encryption, integrity or PRF transform has
    no key length, makes [get_ike_proposals] return [FAILED]. *)
Theorem get_ike_proposals_needs_key_length :
  (forall ts (n : nat) tmp,
     let found := (scan_transforms ts n tmp none_found).2 in
     encryption_algorithm_found found
       = existsb (has_type_and_key_length ENCRYPTION_ALGORITHM) ts
     /\ integrity_algorithm_found found
       = existsb (has_type_and_key_length INTEGRITY_ALGORITHM) ts
     /\ pseudo_random_function_found found
       = existsb (has_type_and_key_length PSEUDO_RANDOM_FUNCTION) ts
     /\ diffie_hellman_group_found found
       = existsb (has_type DIFFIE_HELLMAN_GROUP) ts)
  /\ (forall (this : private_sa_payload_t) (uninit : nat -> ike_proposal_t)
         (out : ike_proposals_out) p t,
       p ∈ proposals this ->
       get_protocol_id p = IKE ->
       get_spi_size p = 0 ->
       get_transform_type <$> transforms p
         ≡ₚ [ENCRYPTION_ALGORITHM; INTEGRITY_ALGORITHM;
             PSEUDO_RANDOM_FUNCTION; DIFFIE_HELLMAN_GROUP] ->
       t ∈ transforms p ->
       get_transform_type t
         ∈ [ENCRYPTION_ALGORITHM; INTEGRITY_ALGORITHM; PSEUDO_RANDOM_FUNCTION] ->
       get_key_length t = None ->
       get_ike_proposals this uninit out = (FAILED, out)).
Proof.
  split.
  { intros ts n tmp. apply (scan_transforms_found ts n tmp none_found). }
  intros this uninit out p t Hin Hike _ Hperm Ht Htype Hnokey.
  apply (get_ike_proposals_fails_at _ _ _ p); [done..|].
  assert (NoDup (get_transform_type <$> transforms p)) as Hnodup.
  { rewrite Hperm. by apply (bool_decide_unpack _). }
  assert (existsb (has_type_and_key_length (get_transform_type t)) (transforms p)
          = false) as Hkeyed.
  { apply existsb_false_iff. intros t' Ht'. unfold has_type_and_key_length, has_type.
    destruct (decide (get_transform_type t' = get_transform_type t)) as [Heq|Hne].
    - rewrite (NoDup_fmap_eq _ _ t' t Hnodup Ht' Ht Heq), Hnokey.
      by rewrite andb_false_r.
    - by rewrite bool_decide_eq_false_2. }
  repeat (apply elem_of_cons in Htype as [Htype|Htype]);
    [..|by apply elem_of_nil in Htype];
    rewrite Htype in Hkeyed; rewrite Hkeyed, ?andb_false_r; done.
Qed.

End Extraction.

(** ** From records to a payload and back *)

Section Bridge.

Context `{payload_t proposal_substructure_t}.

Lemma create_from_ike_proposals_carries (records : list ike_proposal_t) :
  Forall2 carries records
    (proposals (sa_payload_create_from_ike_proposals records)).
Proof.
  apply Forall2_same_length_lookup_2.
  { by rewrite create_from_ike_proposals_length. }
  intros i r p Hr Hp.
  destruct (create_from_ike_proposals_lookup records i r Hr) as [b Hb].
  rewrite Hb in Hp. injection Hp as <-. by eexists _, _.
Qed.

Lemma count_ike_proposals_carries (records : list ike_proposal_t)
    (ps : list proposal_substructure_t) (acc : nat) :
  Forall2 carries records ps ->
  count_ike_proposals ps acc = Some (acc + length records)%nat.
Proof.
  intros Hall. revert acc.
  induction Hall as [|r p records ps (n & b & ->) _ IH]; intros acc.
  - cbn. f_equal. lia.
  - cbn [count_ike_proposals]. rewrite decide_True by done.
    rewrite decide_False by (intros [?|?]; done).
    rewrite IH. cbn [length]. f_equal. lia.
Qed.

(** The scan of the four transforms of a record's proposal writes the whole
    record into its cell. *)
Lemma scan_transforms_carries (r u : ike_proposal_t)
    (p : proposal_substructure_t) (done rest : list ike_proposal_t) :
  carries r p ->
  scan_transforms (transforms p) (length done) (done ++ u :: rest) none_found
  = (done ++ r :: rest, all_found).
Proof.
  intros (n & b & ->).
  replace (length done) with (length done + 0)%nat by lia.
  cbn [scan_transforms transforms set_is_last_proposal ike_proposal_substructure
       get_transform_type transform_type get_key_length key_length
       get_transform_id transform_id].
  rewrite !alter_app_r. cbn [alter list_alter].
  by destruct r.
Qed.

Lemma fill_ike_proposals_carries (records : list ike_proposal_t)
    (ps : list proposal_substructure_t) :
  Forall2 carries records ps ->
  forall done cells : list ike_proposal_t,
    length cells = length records ->
    fill_ike_proposals ps (length done) (done ++ cells) = Some (done ++ records).
Proof.
  induction 1 as [|r p records ps Hp _ IH]; intros done cells Hlen.
  - by destruct cells.
  - destruct cells as [|u cells]; [done|].
    cbn [fill_ike_proposals].
    destruct Hp as (n & b & ->) eqn:Hcarries. clear Hcarries.
    rewrite decide_True by done.
    rewrite (scan_transforms_carries r u) by (by eexists _, _).
    cbn [all_found encryption_algorithm_found integrity_algorithm_found
         pseudo_random_function_found diffie_hellman_group_found negb orb].
    replace (S (length done)) with (length (done ++ [r]))
      by (rewrite length_app; cbn; lia).
    rewrite (cons_middle r done cells), (cons_middle r done records), !app_assoc.
    apply IH. by injection Hlen.
Qed.

(** C2, for a non-empty array: [get_ike_proposals] on the payload of
    [sa_payload_create_from_ike_proposals] succeeds and hands out the
    records themselves, in their order, with their count; the contents of
    the fresh array and of the out parameters before the call do not
    matter. *)
Theorem get_ike_proposals_of_create_from_ike_proposals
    (records : list ike_proposal_t) (uninit : nat -> ike_proposal_t)
    (out : ike_proposals_out) :
  records <> [] ->
  get_ike_proposals (sa_payload_create_from_ike_proposals records) uninit out
  = (SUCCESS,
     {| out_proposals := records;
        out_proposal_count := Z.of_nat (length records) |}).
Proof.
  intros Hne. unfold get_ike_proposals.
  pose proof (create_from_ike_proposals_carries records) as Hall.
  rewrite (count_ike_proposals_carries records) by done.
  rewrite decide_False by (destruct records; [done | cbn; lia]).
  cbn [Nat.add].
  pose proof (fill_ike_proposals_carries records _ Hall []
                (allocator_alloc uninit (length records))) as Hfill.
  cbn [length app] in Hfill.
  by rewrite Hfill by (unfold allocator_alloc; by rewrite length_map, length_seq).
Qed.

End Bridge.

Lemma get_ike_proposals_of_create_from_ike_proposals_witness :
  let records := [sample_record 128; sample_record 256] in
  records <> []
  /\ get_ike_proposals (sa_payload_create_from_ike_proposals records)
       (fun _ => zero_record) empty_out
     = (SUCCESS, {| out_proposals := records; out_proposal_count := 2 |}).
Proof.
  intros records. split; [discriminate|].
  apply (get_ike_proposals_of_create_from_ike_proposals records); discriminate.
Defined.

(** C2 as stated fails on the empty array: the payload has no proposal and
    [get_ike_proposals] answers [NOT_FOUND]. *)
Lemma get_ike_proposals_of_empty_array_counterexample :
  let result :=
    get_ike_proposals (sa_payload_create_from_ike_proposals []) (fun _ => zero_record)
      empty_out in
  result = (NOT_FOUND, empty_out) /\ result.1 <> SUCCESS.
Proof. split; [reflexivity | discriminate]. Qed.

(** Sample payloads for [get_ike_proposals]. *)
Lemma get_ike_proposals_not_found_witness :
  let this := payload_of [proposal_with_transforms 4] in
  Forall (fun p => get_protocol_id p <> IKE) (proposals this)
  /\ get_ike_proposals this (fun _ => zero_record) empty_out = (NOT_FOUND, empty_out).
Proof.
  intros this.
  assert (Forall (fun p => get_protocol_id p <> IKE) (proposals this)) as Hno
    by (repeat constructor; discriminate).
  split; [exact Hno|].
  exact (proj1 (get_ike_proposals_not_found this (fun _ => zero_record) empty_out Hno)).
Defined.

Lemma get_ike_proposals_structural_failure_witness :
  let this :=
    payload_of [ike_proposal_substructure 1 (sample_record 128);
                ike_proposal_without_prf] in
  let p := set_is_last_proposal ike_proposal_without_prf true in
  p ∈ proposals this
  /\ get_protocol_id p = IKE
  /\ get_transform_count p = 3
  /\ get_ike_proposals this (fun _ => zero_record) empty_out = (FAILED, empty_out).
Proof.
  intros this p.
  assert (p ∈ proposals this) as Hin
    by (apply list_elem_of_lookup_2 with 1%nat; reflexivity).
  split; [exact Hin|]. split; [reflexivity|]. split; [reflexivity|].
  apply (get_ike_proposals_structural_failure this _ _ p Hin eq_refl).
  left. discriminate.
Defined.

Lemma get_ike_proposals_needs_key_length_witness :
  let this :=
    payload_of [ike_proposal_substructure 1 (sample_record 128);
                ike_proposal_without_key_length] in
  let p := set_is_last_proposal ike_proposal_without_key_length true in
  p ∈ proposals this
  /\ get_transform_type <$> transforms p
     = [ENCRYPTION_ALGORITHM; PSEUDO_RANDOM_FUNCTION;
        INTEGRITY_ALGORITHM; DIFFIE_HELLMAN_GROUP]
  /\ get_key_length unkeyed_encryption = None
  /\ get_ike_proposals this (fun _ => zero_record) empty_out = (FAILED, empty_out).
Proof.
  intros this p.
  assert (p ∈ proposals this) as Hin
    by (apply list_elem_of_lookup_2 with 1%nat; reflexivity).
  split; [exact Hin|]. split; [reflexivity|]. split; [reflexivity|].
  apply (proj2 get_ike_proposals_needs_key_length this _ _ p unkeyed_encryption Hin);
    try reflexivity.
  - change (get_transform_type <$> transforms p)
      with [ENCRYPTION_ALGORITHM; PSEUDO_RANDOM_FUNCTION;
            INTEGRITY_ALGORITHM; DIFFIE_HELLMAN_GROUP].
    apply Permutation_skip, perm_swap.
  - apply list_elem_of_lookup_2 with 0%nat; reflexivity.
  - apply list_elem_of_lookup_2 with 0%nat; reflexivity.
Defined.

(** * Further properties *)

(** ** More on [verify] *)

Section VerifyOutcome.

Context `{payload_t proposal_substructure_t}.

Lemma verify_loop_later_success (ps : list proposal_substructure_t) (n : Z) :
  verify_loop ps n false = SUCCESS <->
  Forall (fun p => payload_verify p = SUCCESS
                   /\ (get_proposal_number p = n \/ get_proposal_number p = n + 1)) ps.
Proof.
  induction ps as [|p ps IH]; [by split|].
  rewrite Forall_cons, <- IH. cbn [verify_loop].
  destruct (payload_verify p) eqn:Hp;
    repeat case_decide; intuition (try congruence; try lia).
Qed.

Lemma verify_loop_first_success (p : proposal_substructure_t)
    (ps : list proposal_substructure_t) (n : Z) :
  verify_loop (p :: ps) n true = SUCCESS <->
  payload_verify p = SUCCESS /\ get_proposal_number p = n
  /\ verify_loop ps n false = SUCCESS.
Proof.
  cbn [verify_loop].
  destruct (payload_verify p) eqn:Hp;
    repeat case_decide; intuition (try congruence; try lia).
Qed.


(** [verify] accepts a payload exactly when its critical flag is clear,
    every proposal passes its own verify, and the proposal numbers are a
    first 1 followed by 1s and 2s (or there is no proposal). *)
Theorem verify_success_iff (this : private_sa_payload_t) :
  verify this = SUCCESS <->
  critical this = false
  /\ Forall (fun p => payload_verify p = SUCCESS) (proposals this)
  /\ numbering_accepted (get_proposal_number <$> proposals this) = true.
Proof.
  unfold verify. destruct (critical this); [split; [done | by intros [? _]]|].
  destruct (proposals this) as [|p ps]; [by cbn|].
  rewrite verify_loop_first_success, verify_loop_later_success.
  csimpl. rewrite andb_true_iff, bool_decide_eq_true, forallb_forall.
  rewrite Forall_cons, !Forall_forall.
  split.
  - intros (Hp & Hn & Hall). split; [done|].
    split; [split; [done | intros x Hx; by apply Hall]|].
    split; [done|]. intros m Hm.
    apply list_elem_of_In, list_elem_of_fmap in Hm as (q & -> & Hq).
    apply bool_decide_eq_true. by apply Hall.
  - intros (_ & (Hp & Hall) & Hn & Hlater). split; [done|]. split; [done|].
    intros q Hq. split; [by apply Hall|].
    specialize (Hlater (get_proposal_number q)).
    rewrite bool_decide_eq_true in Hlater.
    apply Hlater, list_elem_of_In. by apply list_elem_of_fmap_2.
Qed.


(** A payload with a proposal whose number is below 1 or above 2 is never
    accepted. *)
Theorem verify_rejects_number_outside_1_2 (this : private_sa_payload_t)
    (p : proposal_substructure_t) :
  p ∈ proposals this ->
  get_proposal_number p < 1 \/ 2 < get_proposal_number p ->
  verify this <> SUCCESS.
Proof.
  intros Hin Hnum. unfold verify. destruct (critical this); [done|].
  destruct (proposals this) as [|q ps]; [by apply elem_of_nil in Hin|].
  rewrite verify_loop_first_success, verify_loop_later_success, Forall_forall.
  intros (_ & Hq & Hall). apply elem_of_cons in Hin as [->|Hin]; [lia|].
  apply Hall in Hin. lia.
Qed.

(** Under [verify], a payload of [sa_payload_create_from_ike_proposals] whose
    proposals pass their own verify is accepted exactly when it was built from
    at most two records. *)
Theorem verify_create_from_ike_proposals (records : list ike_proposal_t) :
  Forall (fun p => payload_verify p = SUCCESS)
    (proposals (sa_payload_create_from_ike_proposals records)) ->
  verify (sa_payload_create_from_ike_proposals records) = SUCCESS
  <-> (length records <= 2)%nat.
Proof.
  intros Hall. split.
  - intros Hok. destruct (decide (length records <= 2)%nat) as [|Hlong]; [done|].
    destruct (records !! 2%nat) as [r|] eqn:Hr;
      [|apply lookup_ge_None in Hr; lia].
    destruct (create_from_ike_proposals_lookup records 2 r Hr) as [b Hp].
    apply list_elem_of_lookup_2 in Hp.
    by destruct (verify_rejects_number_outside_1_2 _ _ Hp); [right|].
  - intros Hshort. unfold verify.
    destruct records as [|r1 [|r2 [|r3 rest]]]; [done| | |cbn in Hshort; lia].
    + change (critical (sa_payload_create_from_ike_proposals [r1])) with false.
      change (proposals (sa_payload_create_from_ike_proposals [r1]))
        with [set_is_last_proposal (ike_proposal_substructure 1 r1) true] in *.
      apply Forall_cons in Hall as [H1 _].
      by apply verify_loop_first_success.
    + change (critical (sa_payload_create_from_ike_proposals [r1; r2])) with false.
      change (proposals (sa_payload_create_from_ike_proposals [r1; r2]))
        with [set_is_last_proposal (ike_proposal_substructure 1 r1) false;
              set_is_last_proposal (ike_proposal_substructure 2 r2) true] in *.
      apply Forall_cons in Hall as [H1 [H2 _]%Forall_cons].
      apply verify_loop_first_success. repeat split; [done..|].
      apply verify_loop_later_success.
      apply Forall_cons. split; [split; [done | by right] | apply Forall_nil_2].
Qed.

End VerifyOutcome.

Lemma verify_success_iff_witness :
  let this := payload_of [numbered_proposal 1; numbered_proposal 1; numbered_proposal 2] in
  critical this = false
  /\ numbering_accepted (get_proposal_number <$> proposals this) = true
  /\ verify this = SUCCESS.
Proof.
  intros this. split; [reflexivity|]. split; [reflexivity|].
  apply (proj2 (verify_success_iff this)).
  split; [reflexivity|]. split; [repeat constructor | reflexivity].
Defined.


Lemma verify_rejects_number_outside_1_2_witness :
  let this := payload_of [numbered_proposal 1; numbered_proposal 2; numbered_proposal 3] in
  let p := set_is_last_proposal (numbered_proposal 3) true in
  p ∈ proposals this /\ 2 < get_proposal_number p /\ verify this <> SUCCESS.
Proof.
  intros this p.
  assert (p ∈ proposals this) as Hin
    by (apply list_elem_of_lookup_2 with 2%nat; reflexivity).
  split; [exact Hin|]. split; [reflexivity|].
  apply (verify_rejects_number_outside_1_2 this p Hin). right. reflexivity.
Defined.

Lemma verify_create_from_ike_proposals_witness :
  let records := [sample_record 128; sample_record 192; sample_record 256] in
  Forall (fun p => payload_verify p = SUCCESS)
    (proposals (sa_payload_create_from_ike_proposals records))
  /\ verify (sa_payload_create_from_ike_proposals records) = FAILED
  /\ ~ (length records <= 2)%nat.
Proof.
  intros records.
  assert (Forall (fun p => payload_verify p = SUCCESS)
            (proposals (sa_payload_create_from_ike_proposals records))) as Hall
    by (repeat constructor).
  split; [exact Hall|]. split; [reflexivity|].
  intros Hle. pose proof (proj2 (verify_create_from_ike_proposals records Hall) Hle) as Hok.
  discriminate Hok.
Defined.

(** ** More on the length field and on [add_proposal_substructure] *)

Section LengthField.

Context `{payload_t proposal_substructure_t}.

(** The length field is up to date on a fresh payload, after every
    [add_proposal_substructure] and after every [get_length], whatever the
    payload was before; [set_next_type] keeps it up to date; and on a payload
    with an up-to-date field [get_length] reads the field, a value below
    65536, and changes nothing. *)
Theorem length_field_kept_up_to_date :
  length_field_ok sa_payload_create
  /\ (forall this proposal, length_field_ok (add_proposal_substructure this proposal))
  /\ (forall this, length_field_ok (get_length this).2)
  /\ (forall this type, length_field_ok this -> length_field_ok (set_next_type this type))
  /\ (forall this, length_field_ok this ->
        get_length this = (payload_length this, this)
        /\ 0 <= payload_length this < 65536).
Proof.
  unfold length_field_ok.
  split; [done|]. split; [|split; [|split]].
  - intros this proposal. unfold add_proposal_substructure, compute_length.
    cbn [payload_length proposals]. by rewrite compute_length_loop_sum.
  - intros this. unfold get_length, compute_length.
    cbn [snd payload_length proposals]. by rewrite compute_length_loop_sum.
  - by intros this type Hok.
  - intros this Hok. split.
    + unfold get_length, compute_length. cbn [payload_length].
      rewrite compute_length_loop_sum, <- Hok. by destruct this.
    + rewrite Hok. unfold u_int16. by apply Z.mod_pos_bound.
Qed.

(** For proposals whose length does not depend on their last-proposal flag,
    [add_proposal_substructure] moves the value of [get_length] by the added
    proposal's length, modulo 65536, on every payload. *)
Theorem add_proposal_substructure_length (this : private_sa_payload_t)
    (proposal : proposal_substructure_t) :
  (forall p b, payload_get_length (set_is_last_proposal p b) = payload_get_length p) ->
  (get_length (add_proposal_substructure this proposal)).1
  = ((get_length this).1 + payload_get_length proposal) mod 65536.
Proof.
  intros Hflag.
  rewrite !get_length_value, proposals_add, lengths_sum_snoc, Hflag.
  assert (foldr Z.add 0 (payload_get_length <$>
            (if decide (0 < length (proposals this))%nat
             then alter (fun q => set_is_last_proposal q false)
                    (length (proposals this) - 1)%nat (proposals this)
             else proposals this))
          = foldr Z.add 0 (payload_get_length <$> proposals this)) as ->.
  { case_decide; [|done]. apply lengths_sum_alter. intros p. apply Hflag. }
  rewrite Z.add_mod_idemp_l by done. f_equal. lia.
Qed.

(** [add_proposal_substructure] appends: apart from the last-proposal
    flags, the proposals of the payload are the former ones followed by the
    added one, and next payload type and critical flag are kept. *)
Theorem add_proposal_substructure_appends (this : private_sa_payload_t)
    (proposal : proposal_substructure_t) :
  let clear := fun q => set_is_last_proposal q false in
  clear <$> proposals (add_proposal_substructure this proposal)
  = (clear <$> proposals this) ++ [clear proposal]
  /\ next_payload (add_proposal_substructure this proposal) = next_payload this
  /\ critical (add_proposal_substructure this proposal) = critical this.
Proof.
  intros clear. split; [|done].
  rewrite proposals_add, fmap_app. f_equal.
  case_decide; [|done].
  apply list_eq. intros i. rewrite !list_lookup_fmap.
  destruct (decide (i = length (proposals this) - 1)%nat) as [->|Hne].
  - rewrite list_lookup_alter_eq. by destruct (proposals this !! _).
  - by rewrite list_lookup_alter_ne.
Qed.

(** On a payload whose last-proposal flag is set on the last proposal only
    (or that has no proposal), [add_proposal_substructure] leaves the flag set
    on the added proposal only, now the last. *)
Theorem add_proposal_substructure_keeps_last_flag (this : private_sa_payload_t)
    (proposal : proposal_substructure_t) :
  last_flag_ok (proposals this) ->
  last_flag_ok (proposals (add_proposal_substructure this proposal)).
Proof.
  intros Hok i q. rewrite proposals_add.
  set (n := length (proposals this)).
  assert (length (if decide (0 < n)%nat
                  then alter (fun q => set_is_last_proposal q false) (n - 1)%nat
                         (proposals this)
                  else proposals this) = n) as Hlen.
  { case_decide; [by rewrite length_alter|done]. }
  rewrite length_app, Hlen. cbn [length].
  destruct (decide (i < n)%nat) as [Hlt|Hge].
  - rewrite lookup_app_l by lia. intros Hq.
    assert (is_last_proposal q = false) as ->; [|split; [done | lia]].
    rewrite decide_True in Hq by lia.
    destruct (decide (i = n - 1)%nat) as [->|Hne].
    + rewrite list_lookup_alter_eq in Hq.
      destruct (proposals this !! _); by simplify_eq/=.
    + rewrite list_lookup_alter_ne in Hq by done.
      apply Hok in Hq as Hflag. destruct (is_last_proposal q); [|done].
      fold n in Hflag. destruct Hflag as [Hflag _]. specialize (Hflag eq_refl). lia.
  - rewrite lookup_app_r by lia. rewrite Hlen.
    destruct (i - n)%nat as [|k] eqn:Hk; [|by destruct k].
    intros [= <-]. split; [lia | done].
Qed.

End LengthField.

Lemma length_field_kept_up_to_date_witness :
  let this := payload_of [proposal_with_transforms 2] in
  length_field_ok this
  /\ get_length this = (36, this).
Proof.
  intros this.
  pose proof (proj1 (proj2 length_field_kept_up_to_date)
                sa_payload_create (proposal_with_transforms 2)) as Hok.
  split; [exact Hok|].
  exact (proj1 (proj2 (proj2 (proj2 (proj2 length_field_kept_up_to_date))) this Hok)).
Defined.

Lemma add_proposal_substructure_length_witness :
  let this :=
    payload_of [proposal_with_transforms 3000; proposal_with_transforms 2000] in
  let proposal := proposal_with_transforms 1000 in
  (get_length this).1 = 60020
  /\ payload_get_length proposal = 12008
  /\ (get_length (add_proposal_substructure this proposal)).1 = 6492.
Proof.
  intros this proposal.
  split; [by vm_compute|]. split; [by vm_compute|].
  rewrite (add_proposal_substructure_length this proposal) by (intros p b; reflexivity).
  by vm_compute.
Defined.

Lemma add_proposal_substructure_keeps_last_flag_witness :
  let this := payload_of [numbered_proposal 1] in
  last_flag_ok (proposals this)
  /\ last_flag_ok (proposals (add_proposal_substructure this (numbered_proposal 2))).
Proof.
  intros this.
  assert (last_flag_ok (proposals this)) as Hok.
  { intros [|i] q Hq; [|discriminate Hq].
    injection Hq as <-. split; reflexivity. }
  split; [exact Hok|].
  exact (add_proposal_substructure_keeps_last_flag this (numbered_proposal 2) Hok).
Defined.

(** ** More on [get_ike_proposals] *)

Section ExtractionOutcome.

Implicit Types (ps : list proposal_substructure_t) (p : proposal_substructure_t).
Implicit Types (ts : list transform_substructure_t) (t : transform_substructure_t).
Implicit Types (tmp : list ike_proposal_t) (found : found_flags).

Lemma ike_proposals_of_cons p ps :
  ike_proposals_of (p :: ps)
  = if decide (get_protocol_id p = IKE) then p :: ike_proposals_of ps
    else ike_proposals_of ps.
Proof. unfold ike_proposals_of. by rewrite filter_cons. Qed.

(** The first pass fails on an unshaped IKE proposal and counts the IKE
    proposals otherwise. *)
Lemma count_ike_proposals_value ps (acc : nat) :
  count_ike_proposals ps acc
  = if forallb ike_proposal_shaped (ike_proposals_of ps)
    then Some (acc + length (ike_proposals_of ps))%nat
    else None.
Proof.
  revert acc. induction ps as [|p ps IH]; intros acc.
  - cbn. f_equal. lia.
  - cbn [count_ike_proposals]. rewrite ike_proposals_of_cons.
    case_decide; [|apply IH].
    cbn [forallb length]. unfold ike_proposal_shaped at 1.
    case_decide as Hbad.
    + rewrite bool_decide_eq_false_2; [done|]. intros [? ?]. by destruct Hbad.
    + rewrite bool_decide_eq_true_2.
      * rewrite IH. cbn [andb]. destruct (forallb _ _); [|done]. f_equal. lia.
      * split; [destruct (decide (get_transform_count p = 4))
               | destruct (decide (get_spi_size p = 0))]; tauto.
Qed.

Lemma scan_transforms_flags ts (n : nat) tmp :
  (scan_transforms ts n tmp none_found).2 = all_found
  <-> existsb (has_type_and_key_length ENCRYPTION_ALGORITHM) ts
      && existsb (has_type_and_key_length INTEGRITY_ALGORITHM) ts
      && existsb (has_type_and_key_length PSEUDO_RANDOM_FUNCTION) ts
      && existsb (has_type DIFFIE_HELLMAN_GROUP) ts = true.
Proof.
  destruct (scan_transforms_found ts n tmp none_found) as (He & Hi & Hp & Hd).
  destruct ((scan_transforms ts n tmp none_found).2) as [e i f d].
  cbn in He, Hi, Hp, Hd. rewrite <- He, <- Hi, <- Hp, <- Hd.
  split.
  - by intros [= -> -> -> ->].
  - rewrite !andb_true_iff. by intros [[[-> ->] ->] ->].
Qed.

Lemma scan_transforms_length ts (n : nat) tmp found :
  length (scan_transforms ts n tmp found).1 = length tmp.
Proof.
  revert tmp found. induction ts as [|t ts IH]; intros tmp found; [done|].
  cbn [scan_transforms].
  destruct (get_transform_type t), (get_key_length t);
    rewrite IH, ?length_alter; done.
Qed.

Lemma fill_ike_proposals_step p ps (n : nat) tmp :
  fill_ike_proposals (p :: ps) n tmp
  = if decide (get_protocol_id p = IKE) then
      if ike_proposal_complete p
      then fill_ike_proposals ps (S n)
             (scan_transforms (transforms p) n tmp none_found).1
      else None
    else fill_ike_proposals ps n tmp.
Proof.
  cbn [fill_ike_proposals]. case_decide; [|done].
  pose proof (scan_transforms_flags (transforms p) n tmp) as Hflags.
  fold (ike_proposal_complete p) in Hflags.
  destruct (scan_transforms (transforms p) n tmp none_found) as [tmp' found'].
  cbn [fst snd] in *.
  destruct (ike_proposal_complete p).
  - rewrite (proj2 Hflags eq_refl). done.
  - destruct found' as [[] [] [] []]; try done.
    by destruct (proj1 Hflags eq_refl).
Qed.

Lemma fill_ike_proposals_some ps (n : nat) tmp :
  is_Some (fill_ike_proposals ps n tmp)
  <-> forallb ike_proposal_complete (ike_proposals_of ps) = true.
Proof.
  revert n tmp. induction ps as [|p ps IH]; intros n tmp.
  - cbn. split; [done | by eexists].
  - rewrite fill_ike_proposals_step, ike_proposals_of_cons.
    case_decide; [|apply IH].
    cbn [forallb]. destruct (ike_proposal_complete p); [apply IH|].
    split; [by intros [? ?] | done].
Qed.

Lemma fill_ike_proposals_length ps (n : nat) tmp tmp' :
  fill_ike_proposals ps n tmp = Some tmp' -> length tmp' = length tmp.
Proof.
  revert n tmp. induction ps as [|p ps IH]; intros n tmp.
  - by intros [= ->].
  - rewrite fill_ike_proposals_step.
    repeat case_match; try done; intros Hfill; apply IH in Hfill;
      by rewrite ?scan_transforms_length in Hfill.
Qed.

(** The status of [get_ike_proposals], from the IKE proposals of the
    payload. *)
Lemma get_ike_proposals_status_value (this : private_sa_payload_t)
    (uninit : nat -> ike_proposal_t) (out : ike_proposals_out) :
  (get_ike_proposals this uninit out).1
  = let ikes := ike_proposals_of (proposals this) in
    if negb (forallb ike_proposal_shaped ikes) then FAILED
    else if decide (ikes = []) then NOT_FOUND
    else if forallb ike_proposal_complete ikes then SUCCESS
    else FAILED.
Proof.
  unfold get_ike_proposals. rewrite count_ike_proposals_value. cbn zeta.
  destruct (forallb ike_proposal_shaped _); [|done]. cbn [negb Nat.add].
  destruct (ike_proposals_of (proposals this)) as [|p ikes] eqn:Hikes; [done|].
  rewrite decide_False by done. rewrite (decide_False (P := _ = [])) by done.
  pose proof (fill_ike_proposals_some (proposals this) 0
                (allocator_alloc uninit (length (p :: ikes)))) as Hsome.
  rewrite Hikes in Hsome.
  destruct (fill_ike_proposals _ _ _) as [tmp'|].
  - by rewrite (proj1 Hsome) by by eexists.
  - destruct (forallb ike_proposal_complete _); [|done].
    by destruct (proj2 Hsome eq_refl).
Qed.

(** The three outcomes of [get_ike_proposals]: [NOT_FOUND] exactly without
    IKE proposal; [SUCCESS] exactly with at least one IKE proposal, all of
    them with four transforms, an empty SPI and, for each of the four types,
    a transform that counts as found; [FAILED] exactly when some IKE
    proposal is not so. *)
Theorem get_ike_proposals_status (this : private_sa_payload_t)
    (uninit : nat -> ike_proposal_t) (out : ike_proposals_out) :
  let ikes := ike_proposals_of (proposals this) in
  let status := (get_ike_proposals this uninit out).1 in
  (status = NOT_FOUND <-> ikes = [])
  /\ (status = SUCCESS <->
      ikes <> []
      /\ Forall (fun p => ike_proposal_shaped p = true
                          /\ ike_proposal_complete p = true) ikes)
  /\ (status = FAILED <->
      Exists (fun p => ike_proposal_shaped p = false
                       \/ ike_proposal_complete p = false) ikes).
Proof.
  intros ikes status. unfold status, ikes. clear status ikes.
  rewrite get_ike_proposals_status_value. cbn zeta.
  generalize (ike_proposals_of (proposals this)). intros ikes.
  assert (Forall (fun p => ike_proposal_shaped p = true
                           /\ ike_proposal_complete p = true) ikes
          <-> forallb ike_proposal_shaped ikes = true
              /\ forallb ike_proposal_complete ikes = true) as Hall.
  { rewrite Forall_and, !forallb_forall, !Forall_forall.
    by setoid_rewrite list_elem_of_In. }
  assert (Exists (fun p => ike_proposal_shaped p = false
                           \/ ike_proposal_complete p = false) ikes
          <-> ~ (forallb ike_proposal_shaped ikes = true
                 /\ forallb ike_proposal_complete ikes = true)) as Hbad.
  { clear Hall. induction ikes as [|p ikes IH]; cbn [forallb].
    - rewrite Exists_nil. intuition.
    - rewrite Exists_cons, IH.
      destruct (ike_proposal_shaped p), (ike_proposal_complete p),
        (forallb ike_proposal_shaped ikes), (forallb ike_proposal_complete ikes);
        cbn; intuition congruence. }
  rewrite Hbad, Hall.
  destruct ikes as [|p ikes];
    [rewrite decide_True by done; cbn; intuition congruence|].
  rewrite decide_False by done.
  destruct (forallb ike_proposal_shaped _), (forallb ike_proposal_complete _);
    cbn; intuition congruence.
Qed.

End ExtractionOutcome.

Section ExtractionResult.

Context `{payload_t proposal_substructure_t}.

Implicit Types (ps : list proposal_substructure_t) (p : proposal_substructure_t).
Implicit Types (ts : list transform_substructure_t) (t : transform_substructure_t).
Implicit Types (tmp : list ike_proposal_t) (found : found_flags).

Lemma get_ike_proposals_success_inv (this : private_sa_payload_t)
    (uninit : nat -> ike_proposal_t) (out result : ike_proposals_out) :
  get_ike_proposals this uninit out = (SUCCESS, result) ->
  let n := length (ike_proposals_of (proposals this)) in
  n <> 0%nat
  /\ out_proposal_count result = Z.of_nat n
  /\ fill_ike_proposals (proposals this) 0 (allocator_alloc uninit n)
     = Some (out_proposals result).
Proof.
  unfold get_ike_proposals. rewrite count_ike_proposals_value.
  destruct (forallb ike_proposal_shaped _); [|done]. cbn [Nat.add].
  case_decide as Hn; [done|].
  destruct (fill_ike_proposals _ _ _) as [tmp'|] eqn:Hfill; [|done].
  by intros [= <-].
Qed.

(** When [get_ike_proposals] succeeds, the count it hands out is the number
    of IKE proposals of the payload, which is not zero, and the array has that
    many records. *)
Theorem get_ike_proposals_success_count (this : private_sa_payload_t)
    (uninit : nat -> ike_proposal_t) (out result : ike_proposals_out) :
  get_ike_proposals this uninit out = (SUCCESS, result) ->
  out_proposal_count result
    = Z.of_nat (length (ike_proposals_of (proposals this)))
  /\ length (out_proposals result) = length (ike_proposals_of (proposals this))
  /\ 0 < out_proposal_count result.
Proof.
  intros (Hn & Hcount & Hfill)%get_ike_proposals_success_inv.
  apply fill_ike_proposals_length in Hfill.
  unfold allocator_alloc in Hfill. rewrite length_map, length_seq in Hfill.
  repeat split; [done..|lia].
Qed.

Lemma count_ike_proposals_of ps (acc : nat) :
  count_ike_proposals (ike_proposals_of ps) acc = count_ike_proposals ps acc.
Proof.
  revert acc. induction ps as [|p ps IH]; intros acc; [done|].
  rewrite ike_proposals_of_cons. cbn [count_ike_proposals].
  case_decide; [|done]. cbn [count_ike_proposals].
  rewrite decide_True by done. by case_decide.
Qed.

Lemma fill_ike_proposals_of ps (n : nat) tmp :
  fill_ike_proposals (ike_proposals_of ps) n tmp = fill_ike_proposals ps n tmp.
Proof.
  revert n tmp. induction ps as [|p ps IH]; intros n tmp; [done|].
  rewrite ike_proposals_of_cons, (fill_ike_proposals_step p ps).
  case_decide; [|done]. rewrite fill_ike_proposals_step.
  rewrite decide_True by done. by destruct (ike_proposal_complete p).
Qed.

(** [get_ike_proposals] does not look at the proposals of other protocols:
    without them the payload gives the same status and the same output. *)
Theorem get_ike_proposals_ignores_other_protocols (this : private_sa_payload_t)
    (uninit : nat -> ike_proposal_t) (out : ike_proposals_out) :
  get_ike_proposals (with_proposals this (ike_proposals_of (proposals this)))
    uninit out
  = get_ike_proposals this uninit out.
Proof.
  unfold get_ike_proposals, with_proposals. cbn [proposals].
  rewrite count_ike_proposals_of.
  destruct (count_ike_proposals _ _) as [n|]; [|done].
  case_decide; [done|]. by rewrite fill_ike_proposals_of.
Qed.

Lemma alter_at_length {A} (g : A -> A) (done rest : list A) (c : A) :
  alter g (length done) (done ++ c :: rest) = done ++ g c :: rest.
Proof.
  rewrite alter_app_r_alt by done. by rewrite Nat.sub_diag.
Qed.

(** The scan touches the cell it is given only. *)
Lemma scan_transforms_at ts (done rest : list ike_proposal_t)
    (c : ike_proposal_t) found :
  scan_transforms ts (length done) (done ++ c :: rest) found
  = (done ++ (scan_transforms ts 0 [c] found).1 ++ rest,
     (scan_transforms ts 0 [c] found).2).
Proof.
  revert c found. induction ts as [|t ts IH]; intros c found; [done|].
  cbn [scan_transforms].
  destruct (get_transform_type t), (get_key_length t);
    rewrite ?alter_at_length; cbn [alter list_alter]; apply IH.
Qed.

Lemma scan_transforms_agree ts found (c1 c2 : ike_proposal_t) :
  agree_on found c1 c2 ->
  exists c1' c2' : ike_proposal_t,
    (scan_transforms ts 0 [c1] found).1 = [c1']
    /\ (scan_transforms ts 0 [c2] found).1 = [c2']
    /\ (scan_transforms ts 0 [c1] found).2 = (scan_transforms ts 0 [c2] found).2
    /\ agree_on (scan_transforms ts 0 [c1] found).2 c1' c2'.
Proof.
  revert found c1 c2. induction ts as [|t ts IH]; intros found c1 c2 Hagree.
  { by exists c1, c2. }
  cbn [scan_transforms].
  destruct (get_transform_type t), (get_key_length t);
    cbn [alter list_alter]; apply IH;
    destruct Hagree as (He & Hi & Hp & Hd); unfold agree_on; cbn; tauto.
Qed.

Lemma agree_on_all_found (c1 c2 : ike_proposal_t) :
  agree_on all_found c1 c2 -> c1 = c2.
Proof.
  intros (He & Hi & Hp & Hd). cbn in *.
  destruct (He eq_refl), (Hi eq_refl), (Hp eq_refl).
  specialize (Hd eq_refl). destruct c1, c2; cbn in *. congruence.
Qed.

Lemma fill_ike_proposals_agree ps (done cells1 cells2 : list ike_proposal_t) :
  length cells1 = length (ike_proposals_of ps) ->
  length cells2 = length (ike_proposals_of ps) ->
  fill_ike_proposals ps (length done) (done ++ cells1)
  = fill_ike_proposals ps (length done) (done ++ cells2).
Proof.
  revert done cells1 cells2.
  induction ps as [|p ps IH]; intros done cells1 cells2.
  { destruct cells1, cells2; done. }
  rewrite ike_proposals_of_cons, !fill_ike_proposals_step.
  case_decide; [|apply IH].
  destruct cells1 as [|c1 cells1], cells2 as [|c2 cells2]; try done.
  cbn [length]. intros [= Hlen1] [= Hlen2].
  destruct (ike_proposal_complete p) eqn:Hcomplete; [|done].
  rewrite !scan_transforms_at. cbn [fst].
  destruct (scan_transforms_agree (transforms p) none_found c1 c2)
    as (c1' & c2' & Hc1 & Hc2 & _ & Hagree).
  { unfold agree_on. cbn. intuition congruence. }
  assert ((scan_transforms (transforms p) 0 [c1] none_found).2 = all_found) as Hall
    by by apply scan_transforms_flags.
  rewrite Hall in Hagree. apply agree_on_all_found in Hagree as <-.
  rewrite Hc1, Hc2. cbn [app].
  replace (S (length done)) with (length (done ++ [c1']))
    by (rewrite length_app; cbn; lia).
  rewrite (cons_middle c1' done cells1), (cons_middle c1' done cells2), !app_assoc.
  by apply IH.
Qed.

(** Neither the status nor the output of [get_ike_proposals] depends on what
    the freshly allocated array held: every field of every record handed out
    has been written. *)
Theorem get_ike_proposals_initialises_output (this : private_sa_payload_t)
    (uninit1 uninit2 : nat -> ike_proposal_t) (out : ike_proposals_out) :
  get_ike_proposals this uninit1 out = get_ike_proposals this uninit2 out.
Proof.
  unfold get_ike_proposals. rewrite count_ike_proposals_value.
  destruct (forallb ike_proposal_shaped _); [|done]. cbn [Nat.add].
  case_decide; [done|].
  pose proof (fill_ike_proposals_agree (proposals this) []
                (allocator_alloc uninit1 (length (ike_proposals_of (proposals this))))
                (allocator_alloc uninit2 (length (ike_proposals_of (proposals this)))))
    as Hagree.
  cbn [length app] in Hagree.
  by rewrite Hagree by (unfold allocator_alloc; by rewrite length_map, length_seq).
Qed.

(** What [get_ike_proposals] hands out is reproduced by building a payload
    from it and extracting again. *)
Theorem get_ike_proposals_create_from_result (this : private_sa_payload_t)
    (uninit uninit' : nat -> ike_proposal_t) (out out' result : ike_proposals_out) :
  get_ike_proposals this uninit out = (SUCCESS, result) ->
  get_ike_proposals (sa_payload_create_from_ike_proposals (out_proposals result))
    uninit' out'
  = (SUCCESS, result).
Proof.
  intros Hok.
  pose proof Hok as (Hn & Hcount & Hfill)%get_ike_proposals_success_inv.
  apply fill_ike_proposals_length in Hfill.
  unfold allocator_alloc in Hfill. rewrite length_map, length_seq in Hfill.
  rewrite <- Hfill in Hcount, Hn.
  unfold get_ike_proposals.
  pose proof (create_from_ike_proposals_carries (out_proposals result)) as Hall.
  rewrite (count_ike_proposals_carries (out_proposals result)) by done.
  cbn [Nat.add]. rewrite decide_False by done.
  pose proof (fill_ike_proposals_carries (out_proposals result) _ Hall []
                (allocator_alloc uninit' (length (out_proposals result)))) as Hback.
  cbn [length app] in Hback.
  rewrite Hback by (unfold allocator_alloc; by rewrite length_map, length_seq).
  rewrite <- Hcount. by destruct result.
Qed.

End ExtractionResult.

Section ExtractionContent.

Implicit Types (ps : list proposal_substructure_t) (p : proposal_substructure_t).
Implicit Types (ts : list transform_substructure_t) (t : transform_substructure_t).
Implicit Types (tmp : list ike_proposal_t) (found : found_flags).
Implicit Types (c : ike_proposal_t).

Lemma scan_transforms_cell ts c found :
  exists c', (scan_transforms ts 0 [c] found).1 = [c'].
Proof.
  pose proof (scan_transforms_length ts 0 [c] found) as Hlen.
  destruct (scan_transforms ts 0 [c] found).1 as [|c' [|? ?]]; try done.
  by exists c'.
Qed.

(** A scan without transform of one type keeps the fields of that type. *)
Lemma scan_transforms_untouched ts c c' found (type : transform_type_t) :
  (forall t, t ∈ ts -> get_transform_type t <> type) ->
  (scan_transforms ts 0 [c] found).1 = [c'] ->
  same_fields type c c'.
Proof.
  revert c found. induction ts as [|t ts IH]; intros c found Hnone.
  { intros [= <-]. by destruct type. }
  cbn [scan_transforms].
  assert (get_transform_type t <> type) as Ht by (apply Hnone; left).
  assert (forall t', t' ∈ ts -> get_transform_type t' <> type) as Hrest
    by (intros t' Ht'; apply Hnone; by right).
  destruct (get_transform_type t) eqn:Htype, (get_key_length t);
    cbn [alter list_alter]; intros Hscan; apply (IH _ _ Hrest) in Hscan;
    destruct type; try done; cbn in *; tauto.
Qed.

(** With transforms of pairwise different types, the cell holds after the
    scan what each transform wrote. *)
Lemma scan_transforms_written ts c c' found :
  NoDup (get_transform_type <$> ts) ->
  (scan_transforms ts 0 [c] found).1 = [c'] ->
  forall t, t ∈ ts -> transform_written t c'.
Proof.
  revert c found. induction ts as [|t0 ts IH]; intros c found Hnodup Hscan t Ht.
  { by apply elem_of_nil in Ht. }
  rewrite fmap_cons in Hnodup. apply NoDup_cons in Hnodup as [Hfresh Hnodup].
  cbn [scan_transforms] in Hscan.
  apply elem_of_cons in Ht as [->|Ht].
  - assert (forall t', t' ∈ ts -> get_transform_type t' <> get_transform_type t0)
      as Hnone.
    { intros t' Ht' Heq. apply Hfresh. rewrite <- Heq. by apply list_elem_of_fmap_2. }
    unfold transform_written.
    destruct (get_transform_type t0) eqn:Htype, (get_key_length t0) eqn:Hkey;
      cbn [alter list_alter] in Hscan;
      apply (scan_transforms_untouched _ _ _ _ _ Hnone) in Hscan;
      cbn in Hscan; try done;
      (split; [tauto | intros k' [= <-]; by destruct Hscan]).
  - destruct (get_transform_type t0), (get_key_length t0);
      cbn [alter list_alter] in Hscan; by eapply IH.
Qed.

(** An IKE proposal that passes both passes has one transform of each of the
    four types, and its keyed transforms have their key length. *)
Lemma ike_proposal_transform_types p :
  ike_proposal_shaped p = true -> ike_proposal_complete p = true ->
  get_transform_type <$> transforms p
    ≡ₚ [ENCRYPTION_ALGORITHM; INTEGRITY_ALGORITHM;
        PSEUDO_RANDOM_FUNCTION; DIFFIE_HELLMAN_GROUP]
  /\ forall t, t ∈ transforms p ->
       match get_transform_type t with
       | DIFFIE_HELLMAN_GROUP => True
       | OTHER_TRANSFORM_TYPE => False
       | _ => is_Some (get_key_length t)
       end.
Proof.
  intros [Hcount _]%bool_decide_eq_true Hcomplete.
  unfold ike_proposal_complete in Hcomplete.
  rewrite !andb_true_iff, !existsb_exists in Hcomplete.
  destruct Hcomplete as
    ((((te & Hte%list_elem_of_In & He) & (ti & Hti%list_elem_of_In & Hi))
      & (tp & Htp%list_elem_of_In & Hp)) & (td & Htd%list_elem_of_In & Hd)).
  unfold has_type_and_key_length, has_type in He, Hi, Hp, Hd.
  rewrite andb_true_iff, !bool_decide_eq_true in He, Hi, Hp.
  rewrite bool_decide_eq_true in Hd.
  destruct He as [He Hek], Hi as [Hi Hik], Hp as [Hp Hpk].
  assert ([ENCRYPTION_ALGORITHM; INTEGRITY_ALGORITHM;
           PSEUDO_RANDOM_FUNCTION; DIFFIE_HELLMAN_GROUP]
          ≡ₚ get_transform_type <$> transforms p) as Hperm.
  { apply submseteq_length_Permutation.
    - apply NoDup_submseteq; [by apply (bool_decide_unpack _)|].
      intros type Htype.
      repeat (apply elem_of_cons in Htype as [->|Htype]);
        [..|by apply elem_of_nil in Htype];
        [rewrite <- He | rewrite <- Hi | rewrite <- Hp | rewrite <- Hd];
        by apply list_elem_of_fmap_2.
    - rewrite length_fmap. unfold get_transform_count in Hcount. cbn. lia. }
  split; [done|]. intros t Ht.
  assert (NoDup (get_transform_type <$> transforms p)) as Hnodup
    by (rewrite <- Hperm; by apply (bool_decide_unpack _)).
  assert (get_transform_type t
          ∈ [ENCRYPTION_ALGORITHM; INTEGRITY_ALGORITHM;
             PSEUDO_RANDOM_FUNCTION; DIFFIE_HELLMAN_GROUP]) as Htype
    by (rewrite Hperm; by apply list_elem_of_fmap_2).
  repeat (apply elem_of_cons in Htype as [Htype|Htype]);
    [..|by apply elem_of_nil in Htype]; rewrite Htype; [| | |done].
  - by rewrite (NoDup_fmap_eq _ _ t te Hnodup Ht Hte) by congruence.
  - by rewrite (NoDup_fmap_eq _ _ t ti Hnodup Ht Hti) by congruence.
  - by rewrite (NoDup_fmap_eq _ _ t tp Hnodup Ht Htp) by congruence.
Qed.

(** The array after the second pass, cell by cell. *)
Lemma fill_ike_proposals_cells ps (done cells result : list ike_proposal_t) :
  length cells = length (ike_proposals_of ps) ->
  fill_ike_proposals ps (length done) (done ++ cells) = Some result ->
  exists filled,
    result = done ++ filled
    /\ forall (k : nat) p c,
         ike_proposals_of ps !! k = Some p -> cells !! k = Some c ->
         exists c', (scan_transforms (transforms p) 0 [c] none_found).1 = [c']
                    /\ filled !! k = Some c'.
Proof.
  revert done cells.
  induction ps as [|p ps IH]; intros done cells.
  { destruct cells; [|done]. intros _ [= <-]. by exists []. }
  rewrite ike_proposals_of_cons, fill_ike_proposals_step.
  case_decide; [|apply IH].
  destruct cells as [|c cells]; [done|]. cbn [length]. intros [= Hlen].
  destruct (ike_proposal_complete p); [|done].
  rewrite scan_transforms_at. cbn [fst].
  destruct (scan_transforms_cell (transforms p) c none_found) as [c' Hc'].
  rewrite Hc'. cbn [app].
  replace (S (length done)) with (length (done ++ [c']))
    by (rewrite length_app; cbn; lia).
  rewrite (cons_middle c' done cells), app_assoc.
  intros (filled & -> & Hcells)%IH; [|done].
  exists (c' :: filled). split; [by rewrite <- app_assoc|].
  intros [|k] q d; cbn.
  - intros [= <-] [= <-]. by exists c'.
  - apply Hcells.
Qed.

(** When [get_ike_proposals] succeeds, the record at position [k] belongs
    to the [k]-th IKE proposal of the payload: that proposal has one transform
    of each of the four types, and the record holds the id of each and the key
    length of the encryption, integrity and PRF transforms. *)
Theorem get_ike_proposals_success_content (this : private_sa_payload_t)
    (uninit : nat -> ike_proposal_t) (out result : ike_proposals_out)
    (k : nat) p :
  get_ike_proposals this uninit out = (SUCCESS, result) ->
  ike_proposals_of (proposals this) !! k = Some p ->
  exists r : ike_proposal_t,
    out_proposals result !! k = Some r
    /\ get_transform_type <$> transforms p
         ≡ₚ [ENCRYPTION_ALGORITHM; INTEGRITY_ALGORITHM;
             PSEUDO_RANDOM_FUNCTION; DIFFIE_HELLMAN_GROUP]
    /\ forall t, t ∈ transforms p -> transform_reported t r.
Proof.
  intros Hok Hp.
  assert (ike_proposal_shaped p = true /\ ike_proposal_complete p = true)
    as [Hshaped Hcomplete].
  { pose proof (get_ike_proposals_status_value this uninit out) as Hstatus.
    rewrite Hok in Hstatus. cbn [fst] in Hstatus. cbn zeta in Hstatus.
    destruct (forallb ike_proposal_shaped _) eqn:Hs; [|done].
    cbn [negb] in Hstatus. case_decide; [done|].
    destruct (forallb ike_proposal_complete _) eqn:Hc; [|done].
    rewrite forallb_forall in Hs, Hc.
    apply list_elem_of_lookup_2, list_elem_of_In in Hp. auto. }
  destruct (ike_proposal_transform_types p Hshaped Hcomplete) as [Hperm Hkeys].
  unfold get_ike_proposals in Hok. rewrite count_ike_proposals_value in Hok.
  destruct (forallb ike_proposal_shaped _); [|done]. cbn [Nat.add] in Hok.
  case_decide; [done|].
  destruct (fill_ike_proposals _ _ _) as [tmp'|] eqn:Hfill; [|done].
  injection Hok as <-. cbn [out_proposals].
  apply (fill_ike_proposals_cells _ []) in Hfill
    as (filled & -> & Hcells);
    [|unfold allocator_alloc; by rewrite length_map, length_seq].
  cbn [app].
  assert (is_Some (allocator_alloc uninit
                     (length (ike_proposals_of (proposals this))) !! k))
    as [c Hc].
  { apply lookup_lt_is_Some. unfold allocator_alloc.
    rewrite length_map, length_seq. by apply lookup_lt_Some in Hp. }
  destruct (Hcells k p c Hp Hc) as (c' & Hscan & Hk).
  exists c'. split; [done|]. split; [done|].
  intros t Ht.
  assert (NoDup (get_transform_type <$> transforms p)) as Hnodup
    by (rewrite Hperm; by apply (bool_decide_unpack _)).
  pose proof (scan_transforms_written _ _ _ _ Hnodup Hscan t Ht) as Hwritten.
  specialize (Hkeys t Ht).
  unfold transform_written in Hwritten. unfold transform_reported.
  destruct (get_transform_type t); try done;
    destruct Hwritten as [Hid Hkey]; destruct Hkeys as [key Hkeys];
    (split; [done|]); by rewrite Hkeys, (Hkey key Hkeys).
Qed.

End ExtractionContent.

(** ** [destroy], iterators and the temporary array *)

Section Resources.

Import Equations.Prop.Equations.

Context `{payload_t proposal_substructure_t}.

Lemma destroy_loop_all (ps destroyed : list proposal_substructure_t) :
  destroy_loop ps destroyed = ([], destroyed ++ reverse ps).
Proof.
  revert destroyed. induction ps as [|p ps IH] using rev_ind; intros destroyed.
  - simp destroy_loop. cbn. by rewrite app_nil_r.
  - simp destroy_loop. destruct (decide _) as [Hlt|Hge]; cbn.
    + unfold remove_last. cbn [fst snd]. rewrite last_snoc. cbn [option_list].
      rewrite length_app. cbn [length].
      replace (length ps + 1 - 1)%nat with (length ps) by lia.
      rewrite take_app_length, IH. by rewrite reverse_snoc, <- app_assoc.
    + rewrite length_app in Hge. cbn in Hge. lia.
Qed.

(** [destroy] returns [SUCCESS] after it has destroyed every proposal of the
    payload once, the last one first, and emptied the list. *)
Theorem destroy_destroys_all (this : private_sa_payload_t) :
  destroy this = (SUCCESS, [], reverse (proposals this)).
Proof. unfold destroy. by rewrite destroy_loop_all. Qed.

Lemma verify_loop_destroys_one (ps : list proposal_substructure_t) (n : Z)
    (first : bool) :
  (verify_loop_destroys ps n first <= 1)%nat
  /\ (verify_loop_destroys ps n first = 1%nat <->
      exists before p after,
        ps = before ++ p :: after
        /\ verify_loop before n first = SUCCESS
        /\ get_proposal_number p < n).
Proof.
  revert first. induction ps as [|p0 ps IH]; intros first.
  { split; [cbn; lia|]. split; [done|]. intros (before & p & after & Hps & _).
    by destruct before. }
  destruct (IH false) as [Hle Hone].
  assert ((exists before p after,
             p0 :: ps = before ++ p :: after
             /\ verify_loop before n first = SUCCESS
             /\ get_proposal_number p < n)
          <-> get_proposal_number p0 < n
              \/ (verify_loop [p0] n first = SUCCESS
                  /\ verify_loop_destroys ps n false = 1%nat)) as ->.
  { rewrite Hone. split.
    - intros (before & p & after & Hps & Hok & Hp).
      destruct before as [|q before]; simplify_eq/=; [by left|right].
      revert Hok. destruct (payload_verify q) eqn:Hq;
        repeat case_decide; try destruct first; try done;
        intros Hok; (split; [done|]); by exists before, p, after.
    - intros [Hp|[Hok (before & p & after & -> & Hbefore & Hp)]].
      + by exists [], p0, ps.
      + exists (p0 :: before), p, after. split; [done|]. split; [|done].
        revert Hok. cbn [verify_loop]. destruct (payload_verify p0) eqn:Hq;
          repeat case_decide; try destruct first; done. }
  cbn [verify_loop_destroys verify_loop].
  destruct (payload_verify p0) eqn:Hq;
    repeat case_decide; try destruct first;
    (split; [lia|]); intuition (try congruence; try lia).
Qed.

(** [verify] destroys its iterator a second time exactly when it meets a
    proposal numbered below 1 after proposals it accepted; otherwise it
    destroys each iterator it created once. *)
Theorem verify_destroys_iterator_twice (this : private_sa_payload_t) :
  (verify_iterator_destroys this = verify_iterators_created this
   \/ verify_iterator_destroys this = S (verify_iterators_created this))
  /\ (verify_iterator_destroys this = S (verify_iterators_created this) <->
      critical this = false
      /\ exists before p after,
           proposals this = before ++ p :: after
           /\ verify (with_proposals this before) = SUCCESS
           /\ get_proposal_number p < 1).
Proof.
  unfold verify_iterator_destroys, verify_iterators_created, verify, with_proposals.
  cbn [critical proposals].
  destruct (critical this).
  { split; [by left|]. split; [done | by intros [? _]]. }
  destruct (verify_loop_destroys_one (proposals this) 1 true) as [Hle Hone].
  split; [lia|]. rewrite <- Hone. split; [intros ?; split; [done|lia] | lia].
Qed.

(** The temporary array of [get_ike_proposals] outlives the call exactly when
    the call succeeds, and is freed otherwise; the iterator over the proposals
    is left undestroyed exactly when the first pass finds well-shaped IKE
    proposals and the second pass fails. *)
Theorem get_ike_proposals_releases (this : private_sa_payload_t)
    (uninit : nat -> ike_proposal_t) (out : ike_proposals_out) :
  let memory := get_ike_proposals_memory this uninit in
  let status := (get_ike_proposals this uninit out).1 in
  let ikes := ike_proposals_of (proposals this) in
  (status = SUCCESS <->
   tmp_proposals_allocated memory = true /\ tmp_proposals_freed memory = false)
  /\ (status <> SUCCESS ->
      tmp_proposals_freed memory = tmp_proposals_allocated memory)
  /\ (iterator_destroyed memory = false <->
      ikes <> []
      /\ forallb ike_proposal_shaped ikes = true
      /\ forallb ike_proposal_complete ikes = false).
Proof.
  cbn zeta. unfold get_ike_proposals_memory, get_ike_proposals.
  rewrite count_ike_proposals_value.
  destruct (forallb ike_proposal_shaped _) eqn:Hshaped;
    [|cbn; intuition congruence].
  cbn [Nat.add].
  destruct (ike_proposals_of (proposals this)) as [|p ikes] eqn:Hikes.
  { cbn [length]. rewrite !decide_True by done. cbn. intuition congruence. }
  rewrite !decide_False by done.
  pose proof (fill_ike_proposals_some (proposals this) 0
                (allocator_alloc uninit (length (p :: ikes)))) as Hsome.
  rewrite Hikes in Hsome.
  destruct (fill_ike_proposals _ _ _) as [tmp'|].
  - rewrite (proj1 Hsome) by by eexists. cbn. intuition congruence.
  - destruct (forallb ike_proposal_complete _);
      [by destruct (proj2 Hsome eq_refl)|].
    cbn. intuition congruence.
Qed.

End Resources.

Lemma verify_destroys_iterator_twice_witness :
  let this := payload_of [numbered_proposal 1; numbered_proposal 0] in
  verify_iterators_created this = 1%nat
  /\ verify_iterator_destroys this = 2%nat.
Proof.
  intros this. split; [reflexivity|].
  apply (proj2 (proj2 (verify_destroys_iterator_twice this))).
  split; [reflexivity|].
  exists [set_is_last_proposal (numbered_proposal 1) false],
    (set_is_last_proposal (numbered_proposal 0) true), [].
  repeat split; reflexivity.
Defined.

Lemma get_ike_proposals_releases_witness :
  let this :=
    payload_of [ike_proposal_substructure 1 (sample_record 128);
                ike_proposal_without_key_length] in
  (get_ike_proposals this (fun _ => zero_record) empty_out).1 <> SUCCESS
  /\ tmp_proposals_freed (get_ike_proposals_memory this (fun _ => zero_record)) = true
  /\ iterator_destroyed (get_ike_proposals_memory this (fun _ => zero_record)) = false.
Proof.
  intros this.
  assert ((get_ike_proposals this (fun _ => zero_record) empty_out).1 <> SUCCESS)
    as Hfail by discriminate.
  split; [exact Hfail|]. split; [|reflexivity].
  exact (proj1 (proj2 (get_ike_proposals_releases this (fun _ => zero_record) empty_out))
           Hfail).
Defined.

(** Sample runs of [get_ike_proposals]. *)
Lemma get_ike_proposals_status_witness :
  let this :=
    payload_of [proposal_with_transforms 4;
                ike_proposal_substructure 5 (sample_record 128)] in
  ike_proposals_of (proposals this)
    = [set_is_last_proposal (ike_proposal_substructure 5 (sample_record 128)) true]
  /\ (get_ike_proposals this (fun _ => zero_record) empty_out).1 = SUCCESS.
Proof.
  intros this. split; [reflexivity|].
  apply (proj2 (proj1 (proj2
    (get_ike_proposals_status this (fun _ => zero_record) empty_out)))).
  split; [discriminate|]. repeat constructor.
Defined.

Lemma get_ike_proposals_success_count_witness :
  let this :=
    payload_of [proposal_with_transforms 4;
                ike_proposal_substructure 5 (sample_record 128)] in
  let result := {| out_proposals := [sample_record 128]; out_proposal_count := 1 |} in
  get_ike_proposals this (fun _ => zero_record) empty_out = (SUCCESS, result)
  /\ length (out_proposals result) = length (ike_proposals_of (proposals this)).
Proof.
  intros this result.
  assert (get_ike_proposals this (fun _ => zero_record) empty_out = (SUCCESS, result))
    as Hok by reflexivity.
  split; [exact Hok|].
  exact (proj1 (proj2 (get_ike_proposals_success_count this _ _ result Hok))).
Defined.

Lemma get_ike_proposals_create_from_result_witness :
  let this :=
    payload_of [proposal_with_transforms 4;
                ike_proposal_substructure 5 (sample_record 128)] in
  let result := {| out_proposals := [sample_record 128]; out_proposal_count := 1 |} in
  get_ike_proposals this (fun _ => zero_record) empty_out = (SUCCESS, result)
  /\ get_ike_proposals (sa_payload_create_from_ike_proposals (out_proposals result))
       (fun _ => sample_record 0) empty_out
     = (SUCCESS, result).
Proof.
  intros this result.
  assert (get_ike_proposals this (fun _ => zero_record) empty_out = (SUCCESS, result))
    as Hok by reflexivity.
  split; [exact Hok|].
  exact (get_ike_proposals_create_from_result this _ (fun _ => sample_record 0)
           empty_out empty_out result Hok).
Defined.

Lemma get_ike_proposals_success_content_witness :
  let p := set_is_last_proposal (ike_proposal_substructure 5 (sample_record 128)) true in
  let this := payload_of [proposal_with_transforms 4; ike_proposal_substructure 5 (sample_record 128)] in
  let result := {| out_proposals := [sample_record 128]; out_proposal_count := 1 |} in
  get_ike_proposals this (fun _ => zero_record) empty_out = (SUCCESS, result)
  /\ ike_proposals_of (proposals this) !! 0%nat = Some p
  /\ exists r : ike_proposal_t,
       out_proposals result !! 0%nat = Some r
       /\ get_transform_type <$> transforms p
            ≡ₚ [ENCRYPTION_ALGORITHM; INTEGRITY_ALGORITHM;
                PSEUDO_RANDOM_FUNCTION; DIFFIE_HELLMAN_GROUP]
       /\ forall t, t ∈ transforms p -> transform_reported t r.
Proof.
  intros p this result.
  assert (get_ike_proposals this (fun _ => zero_record) empty_out = (SUCCESS, result))
    as Hok by reflexivity.
  split; [exact Hok|]. split; [reflexivity|].
  exact (get_ike_proposals_success_content this _ _ result 0%nat p Hok eq_refl).
Defined.

(** ** [add_proposal_substructure] followed by [verify] or [get_ike_proposals] *)

Section AfterAdd.

Context `{payload_t proposal_substructure_t}.

Implicit Types (ps : list proposal_substructure_t) (p : proposal_substructure_t).

(** The loop of [verify] sees of a proposal its number and what its own
    verify returns. *)
Lemma verify_loop_congruence ps1 ps2 (n : Z) (first : bool) :
  Forall2 (fun a b => payload_verify a = payload_verify b
                      /\ get_proposal_number a = get_proposal_number b) ps1 ps2 ->
  verify_loop ps1 n first = verify_loop ps2 n first.
Proof.
  intros Hall. revert first.
  induction Hall as [|a b ps1 ps2 [Hv Hn] _ IH]; intros first; [done|].
  cbn [verify_loop]. by rewrite Hv, Hn, IH.
Qed.

Lemma verify_loop_snoc ps p (n : Z) (first : bool) :
  verify_loop (ps ++ [p]) n first = SUCCESS <->
  verify_loop ps n first = SUCCESS
  /\ payload_verify p = SUCCESS
  /\ (get_proposal_number p = n
      \/ (ps <> [] \/ first = false) /\ get_proposal_number p = n + 1).
Proof.
  destruct first.
  - destruct ps as [|q ps].
    + cbn [app]. rewrite verify_loop_first_success. cbn [verify_loop].
      intuition (try congruence; try lia).
    + rewrite <- app_comm_cons, !verify_loop_first_success,
        !verify_loop_later_success, Forall_app, Forall_singleton.
      intuition (try congruence; try lia).
  - rewrite !verify_loop_later_success, Forall_app, Forall_singleton.
    intuition (try congruence; try lia).
Qed.

(** For proposals whose own verify does not depend on their last-proposal
    flag: the payload is accepted after [add_proposal_substructure] exactly
    when it was accepted before, the added proposal passes its own verify, and
    its number is 1, or 2 if it is not the first proposal. *)
Theorem verify_after_add_proposal_substructure (this : private_sa_payload_t) p :
  (forall q b, payload_verify (set_is_last_proposal q b) = payload_verify q) ->
  verify (add_proposal_substructure this p) = SUCCESS <->
  verify this = SUCCESS
  /\ payload_verify p = SUCCESS
  /\ (get_proposal_number p = 1
      \/ proposals this <> [] /\ get_proposal_number p = 2).
Proof.
  intros Hflag. unfold verify.
  change (critical (add_proposal_substructure this p)) with (critical this).
  destruct (critical this); [intuition congruence|].
  rewrite proposals_add.
  set (former := if decide (0 < length (proposals this))%nat
                 then alter (fun q => set_is_last_proposal q false)
                        (length (proposals this) - 1)%nat (proposals this)
                 else proposals this).
  assert (Forall2 (fun a b => payload_verify a = payload_verify b
                              /\ get_proposal_number a = get_proposal_number b)
            former (proposals this)) as Hformer.
  { unfold former. case_decide.
    - apply Forall2_alter_l; [by apply Forall_Forall2_diag, Forall_true|].
      intros a b _ _ [<- <-]. by rewrite Hflag.
    - by apply Forall_Forall2_diag, Forall_true. }
  rewrite verify_loop_snoc, (verify_loop_congruence _ _ _ _ Hformer), Hflag.
  change (get_proposal_number (set_is_last_proposal p true))
    with (get_proposal_number p).
  assert (former <> [] <-> proposals this <> []) as Hne.
  { apply Forall2_length in Hformer.
    destruct former, (proposals this); done. }
  replace (1 + 1) with 2 by done.
  intuition congruence.
Qed.

(** [get_ike_proposals] sees of a proposal its protocol id, the size of its
    SPI and its transforms. *)
Lemma count_ike_proposals_congruence ps1 ps2 (acc : nat) :
  Forall2 (fun a b => get_protocol_id a = get_protocol_id b
                      /\ get_spi_size a = get_spi_size b
                      /\ transforms a = transforms b) ps1 ps2 ->
  count_ike_proposals ps1 acc = count_ike_proposals ps2 acc.
Proof.
  intros Hall. revert acc.
  induction Hall as [|a b ps1 ps2 (Hp & Hs & Ht) _ IH]; intros acc; [done|].
  cbn [count_ike_proposals]. unfold get_transform_count.
  by rewrite Hp, Hs, Ht, !IH.
Qed.

Lemma fill_ike_proposals_congruence ps1 ps2 (n : nat) (tmp : list ike_proposal_t) :
  Forall2 (fun a b => get_protocol_id a = get_protocol_id b
                      /\ get_spi_size a = get_spi_size b
                      /\ transforms a = transforms b) ps1 ps2 ->
  fill_ike_proposals ps1 n tmp = fill_ike_proposals ps2 n tmp.
Proof.
  intros Hall. revert n tmp.
  induction Hall as [|a b ps1 ps2 (Hp & Hs & Ht) _ IH]; intros n tmp; [done|].
  cbn [fill_ike_proposals]. rewrite Hp, Ht.
  case_decide; [|apply IH].
  destruct (scan_transforms _ _ _ _) as [tmp' found'].
  destruct (_ || _); [done | apply IH].
Qed.

(** Two payloads whose proposals agree, one by one, on protocol id, SPI size
    and transforms get the same answer from [get_ike_proposals]: proposal
    numbers and last-proposal flags play no part. *)
Theorem get_ike_proposals_ignores_numbers_and_flags
    (this1 this2 : private_sa_payload_t)
    (uninit : nat -> ike_proposal_t) (out : ike_proposals_out) :
  Forall2 (fun a b => get_protocol_id a = get_protocol_id b
                      /\ get_spi_size a = get_spi_size b
                      /\ transforms a = transforms b)
    (proposals this1) (proposals this2) ->
  get_ike_proposals this1 uninit out = get_ike_proposals this2 uninit out.
Proof.
  intros Hall. unfold get_ike_proposals.
  rewrite (count_ike_proposals_congruence _ _ _ Hall).
  destruct (count_ike_proposals _ _) as [n|]; [|done].
  case_decide; [done|]. by rewrite (fill_ike_proposals_congruence _ _ _ _ Hall).
Qed.

(** Adding a proposal of another protocol than IKE does not change what
    [get_ike_proposals] answers. *)
Theorem get_ike_proposals_after_adding_other_protocol
    (this : private_sa_payload_t) p
    (uninit : nat -> ike_proposal_t) (out : ike_proposals_out) :
  get_protocol_id p <> IKE ->
  get_ike_proposals (add_proposal_substructure this p) uninit out
  = get_ike_proposals this uninit out.
Proof.
  intros Hother. unfold get_ike_proposals. rewrite proposals_add.
  set (former := if decide (0 < length (proposals this))%nat
                 then alter (fun q => set_is_last_proposal q false)
                        (length (proposals this) - 1)%nat (proposals this)
                 else proposals this).
  assert (Forall2 (fun a b => get_protocol_id a = get_protocol_id b
                              /\ get_spi_size a = get_spi_size b
                              /\ transforms a = transforms b)
            former (proposals this)) as Hformer.
  { unfold former. case_decide.
    - apply Forall2_alter_l; [by apply Forall_Forall2_diag, Forall_true|].
      by intros a b _ _ (<- & <- & <-).
    - by apply Forall_Forall2_diag, Forall_true. }
  assert (ike_proposals_of (former ++ [set_is_last_proposal p true])
          = ike_proposals_of former) as Hikes.
  { unfold ike_proposals_of. rewrite filter_app, filter_cons_False by done.
    by rewrite filter_nil, app_nil_r. }
  rewrite <- (count_ike_proposals_of (former ++ _)), Hikes, count_ike_proposals_of.
  rewrite (count_ike_proposals_congruence _ _ _ Hformer).
  destruct (count_ike_proposals _ _) as [n|]; [|done].
  case_decide; [done|].
  rewrite <- (fill_ike_proposals_of (former ++ _)), Hikes, fill_ike_proposals_of.
  by rewrite (fill_ike_proposals_congruence _ _ _ _ Hformer).
Qed.

End AfterAdd.

Lemma verify_after_add_proposal_substructure_witness :
  let this := payload_of [numbered_proposal 1] in
  let p := numbered_proposal 2 in
  verify this = SUCCESS
  /\ get_proposal_number p = 2
  /\ verify (add_proposal_substructure this p) = SUCCESS.
Proof.
  intros this p. split; [reflexivity|]. split; [reflexivity|].
  assert (forall q b, payload_verify (set_is_last_proposal q b) = payload_verify q)
    as Hflag by (intros q b; reflexivity).
  apply (proj2 (verify_after_add_proposal_substructure this p Hflag)).
  split; [reflexivity|]. split; [reflexivity|].
  right. split; [discriminate | reflexivity].
Defined.

Lemma get_ike_proposals_ignores_numbers_and_flags_witness :
  let this1 := payload_of [ike_proposal_substructure 1 (sample_record 128)] in
  let this2 := payload_of [ike_proposal_substructure 7 (sample_record 128);
                           proposal_with_transforms 0] in
  let this3 := with_proposals this2 (take 1 (proposals this2)) in
  get_ike_proposals this1 (fun _ => zero_record) empty_out
  = get_ike_proposals this3 (fun _ => zero_record) empty_out.
Proof.
  intros this1 this2 this3.
  apply (get_ike_proposals_ignores_numbers_and_flags this1 this3).
  repeat constructor.
Defined.

Lemma get_ike_proposals_after_adding_other_protocol_witness :
  let this := payload_of [ike_proposal_substructure 1 (sample_record 128)] in
  let p := proposal_with_transforms 2 in
  get_protocol_id p <> IKE
  /\ get_ike_proposals (add_proposal_substructure this p) (fun _ => zero_record)
       empty_out
     = (SUCCESS,
        {| out_proposals := [sample_record 128]; out_proposal_count := 1 |}).
Proof.
  intros this p. split; [discriminate|].
  rewrite (get_ike_proposals_after_adding_other_protocol this p); [reflexivity|].
  discriminate.
Defined.
